(** * target-position: resolving a target name through the Sesame service

    A shallow embedding of [src/index.ts] (the functions [targetPosition]
    and [setMirror]) together with the fragments of the JavaScript run time
    they rely on: strings as sequences of UTF-16 code units, [trim],
    [toLowerCase], [encodeURIComponent], [Array.prototype.join],
    [parseFloat], property reads on dynamically typed values, and promise
    settlement.

    The module state is the variable [BASE_URL]; next to it the model keeps
    the list of URLs [fetch] has been called with, as the mock of the test
    suite does.  The network and the XML parser are the host: a call is a
    function of the host's answers.  A call has two parts, as in the
    source: the synchronous body of the promise executor, which validates,
    builds the URL and calls [fetch], and the chain of handlers that settles
    the promise once the response is there. *)

From Stdlib Require Import ZArith NArith Ascii SpecFloat.
From stdpp Require Import gmap list strings.

#[local] Set Warnings "-register-all,-clear-no-such-hyp".
Local Open Scope N_scope.

(** ** JavaScript strings *)

(** A JavaScript string is a finite sequence of UTF-16 code units, each a
    number below 2^16. *)
Definition jsstring : Type := list N.

(** The code units of an ASCII literal of the source text. *)
Definition lit (s : string) : jsstring :=
  N_of_ascii <$> String.list_ascii_of_string s.

(** A string is falsy exactly when it is empty. *)
Definition truthy (s : jsstring) : bool :=
  match s with
  | [] => false
  | _ :: _ => true
  end.

(** WhiteSpace and LineTerminator code points of ECMAScript; these are what
    [String.prototype.trim] strips and what [parseFloat] skips. *)
Definition isWhiteSpace (c : N) : bool :=
  (c =? 0x09) || (c =? 0x0A) || (c =? 0x0B) || (c =? 0x0C) || (c =? 0x0D)
  || (c =? 0x20) || (c =? 0xA0) || (c =? 0x1680)
  || ((0x2000 <=? c) && (c <=? 0x200A))
  || (c =? 0x2028) || (c =? 0x2029) || (c =? 0x202F) || (c =? 0x205F)
  || (c =? 0x3000) || (c =? 0xFEFF).

Fixpoint trimStart (s : jsstring) : jsstring :=
  match s with
  | [] => []
  | c :: rest => if isWhiteSpace c then trimStart rest else s
  end.

Definition trimEnd (s : jsstring) : jsstring := rev (trimStart (rev s)).

(** [String.prototype.trim] *)
Definition trim (s : jsstring) : jsstring := trimEnd (trimStart s).

(** [String.prototype.toLowerCase] on one code unit.  The letters A-Z are
    mapped to a-z; code units outside ASCII are left alone.  The source
    uses the lower-cased names only to compare them with [ned], [simbad]
    and [vizier], and no string with a code unit outside ASCII lower-cases
    to one of these, so the outcome of every comparison is the one of the
    full Unicode mapping. *)
Definition lowerUnit (c : N) : N :=
  if (0x41 <=? c) && (c <=? 0x5A) then c + 0x20 else c.

Definition toLowerCase (s : jsstring) : jsstring := lowerUnit <$> s.

(** [Array.prototype.indexOf] on an array of strings: the first index holding
    the string, or -1. *)
Fixpoint indexOfFrom (i : Z) (a : list jsstring) (x : jsstring) : Z :=
  match a with
  | [] => (-1)%Z
  | y :: rest => if bool_decide (y = x) then i else indexOfFrom (i + 1)%Z rest x
  end.

Definition indexOf (a : list jsstring) (x : jsstring) : Z := indexOfFrom 0%Z a x.

(** [Array.prototype.join] on an array of strings. *)
Fixpoint join (sep : jsstring) (a : list jsstring) : jsstring :=
  match a with
  | [] => []
  | [x] => x
  | x :: rest => x ++ sep ++ join sep rest
  end.

(** ** Errors and abrupt completion *)

(** The error objects that can reach the caller.  [Error] is what
    [new Error(message)] builds; [TypeError] and [URIError] are raised by the
    run time, with its own wording. *)
Inductive JsError : Type :=
  | Error (message : jsstring)
  | TypeError (message : jsstring)
  | URIError (message : jsstring).

Definition message (e : JsError) : jsstring :=
  match e with
  | Error m | TypeError m | URIError m => m
  end.

(** The result of evaluating a piece of code that may throw. *)
Inductive completion (A : Type) : Type :=
  | Normal (a : A)
  | Throw (e : JsError).
Arguments Normal {A} a.
Arguments Throw {A} e.

(** Sequencing of code that may throw, with stdpp's monadic notation
    [x ← c; k]. *)
#[global] Instance completion_ret : MRet completion := fun A a => Normal a.
#[global] Instance completion_bind : MBind completion := fun A B k c =>
  match c with
  | Normal a => k a
  | Throw e => Throw e
  end.

(** ** encodeURIComponent *)

Definition inRange (lo hi c : N) : bool := (lo <=? c) && (c <=? hi).

(** Characters that [encodeURIComponent] leaves as they are: letters, digits
    and [- _ . ! ~ * ' ( )]. *)
Definition uriUnreserved (c : N) : bool :=
  inRange 0x41 0x5A c || inRange 0x61 0x7A c || inRange 0x30 0x39 c
  || bool_decide (c ∈ lit "-_.!~*'()").

Definition hexDigit (n : N) : N := if n <? 10 then 0x30 + n else 0x37 + n.

(** One octet as [%XX], in upper-case hexadecimal. *)
Definition percentOctet (b : N) : jsstring :=
  [0x25; hexDigit (b / 16); hexDigit (b mod 16)].

(** The UTF-8 octets of a code point. *)
Definition utf8 (v : N) : list N :=
  if v <? 0x80 then [v]
  else if v <? 0x800 then [0xC0 + v / 0x40; 0x80 + v mod 0x40]
  else if v <? 0x10000 then
    [0xE0 + v / 0x1000; 0x80 + (v / 0x40) mod 0x40; 0x80 + v mod 0x40]
  else
    [0xF0 + v / 0x40000; 0x80 + (v / 0x1000) mod 0x40;
     0x80 + (v / 0x40) mod 0x40; 0x80 + v mod 0x40].

Definition percentEncode (v : N) : jsstring := mjoin (percentOctet <$> utf8 v).

Definition isHighSurrogate (c : N) : bool := inRange 0xD800 0xDBFF c.
Definition isLowSurrogate (c : N) : bool := inRange 0xDC00 0xDFFF c.

Definition uriMalformed : JsError := URIError (lit "URI malformed").

(** The Encode operation of ECMAScript with the unreserved set of
    [encodeURIComponent]: a surrogate that is not part of a pair makes it
    throw a URIError. *)
Fixpoint encodeURIComponent (s : jsstring) : completion jsstring :=
  match s with
  | [] => Normal []
  | c :: rest =>
      if uriUnreserved c then
        r ← encodeURIComponent rest; Normal (c :: r)
      else if isLowSurrogate c then Throw uriMalformed
      else if negb (isHighSurrogate c) then
        r ← encodeURIComponent rest; Normal (percentEncode c ++ r)
      else
        match rest with
        | [] => Throw uriMalformed
        | k :: rest' =>
            if isLowSurrogate k then
              r ← encodeURIComponent rest';
              Normal (percentEncode ((c - 0xD800) * 0x400 + (k - 0xDC00) + 0x10000) ++ r)
            else Throw uriMalformed
        end
  end.

(** ** Dynamically typed values *)

(** The values the XML parser hands to its callback: [undefined], [null],
    strings, arrays and plain objects (own properties in insertion order). *)
Inductive jsval : Type :=
  | JUndefined
  | JNull
  | JStr (s : jsstring)
  | JArr (items : list jsval)
  | JObj (props : list (jsstring * jsval)).

(** Own property of a plain object. *)
Fixpoint ownProp (props : list (jsstring * jsval)) (key : jsstring) : jsval :=
  match props with
  | [] => JUndefined
  | (k, v) :: rest => if bool_decide (k = key) then v else ownProp rest key
  end.

Definition cannotRead (key : jsstring) (base : string) : JsError :=
  TypeError (lit "Cannot read property '" ++ key ++ lit "' of " ++ lit base).

(** [v.key] for a key that is neither an index nor a built-in property of
    strings and arrays (the source reads [Sesame], [Target], [Resolver],
    [jradeg] and [jdedeg]).  Reading from [undefined] or [null] throws. *)
Definition getProp (v : jsval) (key : jsstring) : completion jsval :=
  match v with
  | JUndefined => Throw (cannotRead key "undefined")
  | JNull => Throw (cannotRead key "null")
  | JStr _ => Normal JUndefined
  | JArr _ => Normal JUndefined
  | JObj props => Normal (ownProp props key)
  end.

(** [v[0]] *)
Definition getIndex0 (v : jsval) : completion jsval :=
  match v with
  | JUndefined => Throw (cannotRead (lit "0") "undefined")
  | JNull => Throw (cannotRead (lit "0") "null")
  | JStr [] => Normal JUndefined
  | JStr (c :: _) => Normal (JStr [c])
  | JArr [] => Normal JUndefined
  | JArr (x :: _) => Normal x
  | JObj props => Normal (ownProp props (lit "0"))
  end.

(** [!v] *)
Definition falsy (v : jsval) : bool :=
  match v with
  | JUndefined | JNull => true
  | JStr s => negb (truthy s)
  | JArr _ | JObj _ => false
  end.

(** [v.length === 0] for a value that is neither [undefined] nor [null]:
    the length of a string or an array is its number of elements; an own
    [length] property of a plain object holds no number here. *)
Definition lengthIsZero (v : jsval) : bool :=
  match v with
  | JStr [] | JArr [] => true
  | _ => false
  end.

(** Whether a plain object has an own property of that name. *)
Fixpoint hasOwnProperty (props : list (jsstring * jsval)) (key : jsstring) : bool :=
  match props with
  | [] => false
  | (k, _) :: rest => bool_decide (k = key) || hasOwnProperty rest key
  end.

Definition cannotConvert : JsError :=
  TypeError (lit "Cannot convert object to primitive value").

(** The abstract operation ToString.  An array is joined with commas,
    [undefined] and [null] elements giving the empty string.  A plain object
    gives the text of [Object.prototype.toString], unless an own property
    shadows [toString]: no property here holds a function, so the
    conversion then throws. *)
Fixpoint ToString (v : jsval) : completion jsstring :=
  match v with
  | JUndefined => Normal (lit "undefined")
  | JNull => Normal (lit "null")
  | JStr s => Normal s
  | JArr items =>
      parts ← (fix each (l : list jsval) : completion (list jsstring) :=
                 match l with
                 | [] => Normal []
                 | x :: rest =>
                     s ← match x with
                         | JUndefined | JNull => Normal []
                         | _ => ToString x
                         end;
                     ss ← each rest;
                     Normal (s :: ss)
                 end) items;
      Normal (join (lit ",") parts)
  | JObj props =>
      if hasOwnProperty props (lit "toString") then Throw cannotConvert
      else Normal (lit "[object Object]")
  end.

(** ** Numbers and parseFloat *)

(** A Number is an IEEE 754 binary64 value. *)
Definition number : Type := spec_float.

Definition prec : Z := 53.
Definition emax : Z := 1024.

Definition isNaN (x : number) : bool :=
  match x with
  | S754_nan => true
  | _ => false
  end.

(** The Number denoted by an integer literal of the source. *)
Definition numberOfZ (z : Z) : number := binary_normalize prec emax z 0 false.

(** The Number nearest to [m * 10^e] (ties to even), with sign [neg]. *)
Definition decimalToNumber (neg : bool) (m : Z) (e : Z) : number :=
  match m with
  | Zpos p =>
      if (0 <=? e)%Z then binary_round prec emax neg (p * Z.to_pos (10 ^ e)) 0
      else
        let '(q, e', l) := SFdiv_core_binary prec emax m 0 (10 ^ (- e)) 0 in
        binary_round_aux prec emax neg q e' l
  | _ => S754_zero neg
  end.

Definition isDigit (c : N) : bool := inRange 0x30 0x39 c.

(** The longest run of decimal digits at the front, and what follows it. *)
Fixpoint takeDigits (s : jsstring) : list N * jsstring :=
  match s with
  | [] => ([], [])
  | c :: rest =>
      if isDigit c then let '(ds, r) := takeDigits rest in (c :: ds, r)
      else ([], s)
  end.

Definition digitsValue (ds : list N) : Z :=
  fold_left (fun acc d => (10 * acc + Z.of_N (d - 0x30))%Z) ds 0%Z.

Definition takeSign (s : jsstring) : bool * jsstring :=
  match s with
  | 0x2D :: rest => (true, rest)
  | 0x2B :: rest => (false, rest)
  | _ => (false, s)
  end.

Fixpoint startsWith (p s : jsstring) : bool :=
  match p, s with
  | [], _ => true
  | a :: p', b :: s' => (a =? b) && startsWith p' s'
  | _ :: _, [] => false
  end.

(** The exponent part [e], [e+] or [e-] followed by digits, when present;
    zero otherwise. *)
Definition exponentPart (s : jsstring) : Z :=
  match s with
  | c :: rest =>
      if (c =? 0x65) || (c =? 0x45) then
        let '(neg, r) := takeSign rest in
        let '(ds, _) := takeDigits r in
        match ds with
        | [] => 0%Z
        | _ => if neg then (- digitsValue ds)%Z else digitsValue ds
        end
      else 0%Z
  | [] => 0%Z
  end.

(** The value of the longest prefix that is a StrDecimalLiteral, or NaN when
    there is none. *)
Definition strDecimalPrefix (s : jsstring) : number :=
  let '(neg, s1) := takeSign s in
  if startsWith (lit "Infinity") s1 then S754_infinity neg
  else
    let '(ip, s2) := takeDigits s1 in
    let '(fp, s3) :=
      match s2 with
      | 0x2E :: r => takeDigits r
      | _ => ([], s2)
      end in
    match ip ++ fp with
    | [] => S754_nan
    | ds => decimalToNumber neg (digitsValue ds) (exponentPart s3 - Z.of_nat (length fp))
    end.

(** [parseFloat]: ToString, skip leading white space, read the longest
    decimal literal. *)
Definition parseFloat (v : jsval) : completion number :=
  inputString ← ToString v;
  Normal (strDecimalPrefix (trimStart inputString)).

(** ** Promises *)

(** The state a promise ends in; [Pending] is a promise that never settles. *)
Inductive promise (A : Type) : Type :=
  | Fulfilled (value : A)
  | Rejected (reason : JsError)
  | Pending.
Arguments Fulfilled {A} value.
Arguments Rejected {A} reason.
Arguments Pending {A}.

(** [p.then(f)] for a handler that returns a promise: a rejection or a
    promise that never settles passes through. *)
#[global] Instance promise_bind : MBind promise := fun A B f p =>
  match p with
  | Fulfilled a => f a
  | Rejected e => Rejected e
  | Pending => Pending
  end.

(** A handler that returns fulfills the promise; one that throws rejects
    it. *)
Definition settle {A} (c : completion A) : promise A :=
  match c with
  | Normal a => Fulfilled a
  | Throw e => Rejected e
  end.

(** ** The host: network and XML parser *)

(** A fetch Response: its [ok] flag and what [text()] settles to. *)
Record Response : Type := { ok : bool; text : promise jsstring }.

(** What xml2js reports for a text: an error, or the root object.  For a
    blank text it reports the root [null]. *)
Inductive XmlResult : Type :=
  | Malformed (err : JsError)
  | Parsed (root : jsval).

(** The world outside the module: how the network answers a GET of a URL,
    and what the XML parser makes of a text. *)
Record Host : Type := {
  fetch : jsstring -> promise Response;
  xml2js : jsstring -> XmlResult
}.

(** [parseString(text, cb)] of xml2js: the callback is run before
    [parseString] returns, with [(err, undefined)] on a parse error and
    [(null, root)] otherwise; what the callback throws leaves
    [parseString]. *)
Definition parseString {A} (h : Host) (text : jsstring)
    (cb : option JsError -> jsval -> completion A) : completion A :=
  match xml2js h text with
  | Malformed err => cb (Some err) JUndefined
  | Parsed root => cb None root
  end.

(** ** The module state *)

(** [BASE_URL] is the module-level variable; [fetchCalls] records, in
    order, the URLs [fetch] has been called with. *)
Record World : Type := { BASE_URL : jsstring; fetchCalls : list jsstring }.

Definition initialWorld : World :=
  {| BASE_URL := lit "https://cdsweb.u-strasbg.fr/cgi-bin/nph-sesame/";
     fetchCalls := [] |}.

Definition SUPPORTED_RESOLVERS : list jsstring :=
  [lit "ned"; lit "simbad"; lit "vizier"].

Record IPosition : Type := {
  rightAscension : number;
  declination : number;
  equinox : number
}.

(** ** targetPosition *)

(** The default value of the parameter [resolvers]. *)
Definition defaultResolvers : list jsstring :=
  [lit "Simbad"; lit "NED"; lit "VizieR"].

(** [(targetName && targetName.trim()) || ""], where [None] stands for a
    [null] or [undefined] argument. *)
Definition trimmedTargetName (targetName : option jsstring) : jsstring :=
  match targetName with
  | None => []
  | Some s => if truthy s then (if truthy (trim s) then trim s else []) else []
  end.

Definition unsupportedResolvers (resolvers : list jsstring) : list jsstring :=
  filter (fun resolver =>
            indexOf SUPPORTED_RESOLVERS (toLowerCase resolver) = (-1)%Z)
         resolvers.

Definition unsupportedMessage (unsupported : list jsstring) : jsstring :=
  lit "The following resolver"
  ++ (if bool_decide (length unsupported ≠ 1%nat) then lit "s are" else lit " is")
  ++ lit " not supported: "
  ++ join (lit ", ") unsupported
  ++ lit ". The available resolvers are Simbad, NED and VizieR.".

Definition lowerCaseResolvers (resolvers : list jsstring) : list jsstring :=
  toLowerCase <$> resolvers.

(** The [switch] that gives the code letter of a lower-case resolver. *)
Definition codeLetter (resolver : jsstring) : jsstring :=
  if bool_decide (resolver = lit "simbad") then lit "S"
  else if bool_decide (resolver = lit "ned") then lit "N"
  else if bool_decide (resolver = lit "vizier") then lit "V"
  else [].

Definition resolverCode (lower : list jsstring) : jsstring :=
  join [] (codeLetter <$> lower).

(** [encodeURIComponent(targetName)]; an absent name would be encoded as
    the word [undefined], but is rejected before this point. *)
Definition encodedTargetName (targetName : option jsstring) : completion jsstring :=
  match targetName with
  | Some s => encodeURIComponent s
  | None => Normal (lit "undefined")
  end.

(** The part of the promise executor that runs before [fetch] is called:
    the four checks and the construction of the URL.  [Throw] stands for
    the promise being rejected at this point, by [reject] or by an
    exception. *)
Definition requestUrl (base : jsstring) (targetName : option jsstring)
    (resolvers : list jsstring) : completion jsstring :=
  if negb (truthy (trimmedTargetName targetName)) then
    Throw (Error (lit "The target name is missing."))
  else
    let unsupported := unsupportedResolvers resolvers in
    if bool_decide (0 < length unsupported)%nat then
      Throw (Error (unsupportedMessage unsupported))
    else
      let lower := lowerCaseResolvers resolvers in
      if bool_decide (length lower = 0%nat) then
        Throw (Error (lit "At least one resolver must be given."))
      else if bool_decide (size (list_to_set lower : gset jsstring) ≠ length lower) then
        Throw (Error (lit "A resolver may be used only once in the array of resolvers."))
      else
        encoded ← encodedTargetName targetName;
        Normal (base ++ lit "/-ox/" ++ resolverCode lower ++ lit "?" ++ encoded).

(** The synchronous part of a call: it either rejects at once, leaving the
    world as it was, or calls [fetch] with the URL it has built. *)
Definition start (w : World) (targetName : option jsstring)
    (resolvers : option (list jsstring)) : World * completion jsstring :=
  match requestUrl (BASE_URL w) targetName (default defaultResolvers resolvers) with
  | Throw e => (w, Throw e)
  | Normal url =>
      ({| BASE_URL := BASE_URL w; fetchCalls := fetchCalls w ++ [url] |}, Normal url)
  end.

(** [parseText]: the body text together with the [ok] flag. *)
Definition parseText (res : Response) : promise (jsstring * bool) :=
  t ← text res; Fulfilled (t, ok res).

(** [root.Sesame.Target[0].Resolver] *)
Definition resolverOf (root : jsval) : completion jsval :=
  sesame ← getProp root (lit "Sesame");
  target ← getProp sesame (lit "Target");
  target0 ← getIndex0 target;
  getProp target0 (lit "Resolver").

(** [parseFloat(resolver[0].key)] *)
Definition firstEntryNumber (resolver : jsval) (key : jsstring) : completion number :=
  entry ← getIndex0 resolver;
  field ← getProp entry key;
  parseFloat field.

(** The callback given to [parseString].  A normal completion carries the
    value passed to [resolve]. *)
Definition extractTarget (err : option JsError) (root : jsval)
    : completion (option IPosition) :=
  resolver ← resolverOf root;
  if falsy resolver || lengthIsZero resolver then Normal None
  else
    ra ← firstEntryNumber resolver (lit "jradeg");
    dec ← firstEntryNumber resolver (lit "jdedeg");
    if negb (isNaN ra) && negb (isNaN dec) then
      Normal (Some {| declination := dec;
                      equinox := numberOfZ 2000;
                      rightAscension := ra |})
    else Normal None.

(** The handler of the parsed response. *)
Definition handleResponse (h : Host) (res : jsstring * bool)
    : completion (option IPosition) :=
  if negb (snd res) then Throw (Error (fst res))
  else parseString h (fst res) extractTarget.

(** What the promise of a call settles to once its request is under way:
    [fetch(url).then(parseText).then(...).catch(reject)]. *)
Definition settlement (h : Host) (url : jsstring) : promise (option IPosition) :=
  res ← fetch h url;
  parsed ← parseText res;
  settle (handleResponse h parsed).

Definition targetPosition (h : Host) (w : World) (targetName : option jsstring)
    (resolvers : option (list jsstring)) : World * promise (option IPosition) :=
  match start w targetName resolvers with
  | (w', Throw e) => (w', Rejected e)
  | (w', Normal url) => (w', settlement h url)
  end.

(** ** setMirror *)

Definition setMirror (url : jsstring) (w : World) : World :=
  {| BASE_URL := url; fetchCalls := fetchCalls w |}.

(** ** Sequences of calls *)

(** The two exported operations, as issued by a client. *)
Inductive Op : Type :=
  | CallTargetPosition (targetName : option jsstring) (resolvers : option (list jsstring))
  | CallSetMirror (url : jsstring).

(** The effect of an operation on the module state at the moment it is
    issued. *)
Definition step (w : World) (op : Op) : World :=
  match op with
  | CallTargetPosition targetName resolvers => fst (start w targetName resolvers)
  | CallSetMirror url => setMirror url w
  end.

Definition run (w : World) (ops : list Op) : World := fold_left step ops w.

(** The endpoint in force after a sequence of operations: the argument of
    the last [setMirror] among them, or the one in force before. *)
Definition lastMirror (base : jsstring) (ops : list Op) : jsstring :=
  fold_left (fun b op =>
               match op with
               | CallSetMirror url => url
               | CallTargetPosition _ _ => b
               end) ops base.

(** ** Hosts for examples *)

(** A host whose network never answers. *)
Definition silentHost : Host :=
  {| fetch := fun _ => Pending; xml2js := fun _ => Parsed JNull |}.

(** A host in the manner of the mocks of the test suite: every request is
    answered with the same response, every text parses to the same
    result. *)
Definition mockHost (res : promise Response) (xml : XmlResult) : Host :=
  {| fetch := fun _ => res; xml2js := fun _ => xml |}.

(** A response with a success status whose body reads as [body]. *)
Definition okResponse (body : jsstring) : promise Response :=
  Fulfilled {| ok := true; text := Fulfilled body |}.

(** One [Resolver] element in the form xml2js gives it: the attributes
    under [$], every child element as an array. *)
Definition resolverEntry (ra dec : string) : jsval :=
  JObj [(lit "$", JObj [(lit "name", JStr (lit "V1=VizieR (CDS)"))]);
        (lit "INFO", JArr [JStr (lit "from cache")]);
        (lit "jpos", JArr [JStr (lit "00:01:35.97 +72:14:11.8")]);
        (lit "jradeg", JArr [JStr (lit ra)]);
        (lit "jdedeg", JArr [JStr (lit dec)]);
        (lit "oname", JArr [JStr (lit "{HIP} 123")])].

(** The root object of a reply whose target block holds the given
    [Resolver] elements, after the replies of the test suite. *)
Definition sesameReply (entries : list jsval) : jsval :=
  JObj [(lit "Sesame",
         JObj [(lit "$", JObj [(lit "xmlns:xsi",
                                JStr (lit "http://www.w3.org/2001/XMLSchema-instance"))]);
               (lit "Target",
                JArr [JObj [(lit "$", JObj [(lit "option", JStr (lit "V"))]);
                            (lit "name", JArr [JStr (lit "HIP123")]);
                            (lit "Resolver", JArr entries)]])])].

(** The root object of the reply for a name that nothing resolves: the
    target block has no [Resolver] element. *)
Definition nothingFoundReply : jsval :=
  JObj [(lit "Sesame",
         JObj [(lit "$", JObj [(lit "xmlns:xsi",
                                JStr (lit "http://www.w3.org/2001/XMLSchema-instance"))]);
               (lit "Target",
                JArr [JObj [(lit "$", JObj [(lit "option", JStr (lit "V"))]);
                            (lit "name", JArr [JStr (lit "HIP123456")]);
                            (lit "INFO", JArr [JStr (lit "*** Nothing found ***")])]])])].

(** What a call settles to when the reply has one [Resolver] entry with the
    given fields. *)
Definition resolved (ra dec : string) : promise (option IPosition) :=
  snd (targetPosition
         (mockHost (okResponse (lit "<Sesame>...</Sesame>"))
                   (Parsed (sesameReply [resolverEntry ra dec])))
         initialWorld (Some (lit "A")) None).

(** ** Vocabulary of the specification *)

(** The four checks of the validation sequence, in the words of the
    specification: the trimmed target name is not empty; every entry of the
    selection matches one of [ned], [simbad], [vizier] without regard to
    case; the selection is not empty; no name occurs twice after
    lower-casing. *)
Definition passesValidation (targetName : option jsstring)
    (resolvers : option (list jsstring)) : Prop :=
  let selection := default defaultResolvers resolvers in
  trimmedTargetName targetName ≠ []
  ∧ Forall (fun r => toLowerCase r ∈ SUPPORTED_RESOLVERS) selection
  ∧ selection ≠ []
  ∧ NoDup (toLowerCase <$> selection).

#[global] Instance passesValidation_dec targetName resolvers :
  Decision (passesValidation targetName resolvers).
Proof. unfold passesValidation. apply _. Defined.

(** Values whose conversion to a string completes: no object met on the
    way has an own property named [toString]. *)
Fixpoint stringifiable (v : jsval) : bool :=
  match v with
  | JObj props => negb (hasOwnProperty props (lit "toString"))
  | JArr items =>
      (fix all (l : list jsval) : bool :=
         match l with
         | [] => true
         | x :: rest => stringifiable x && all rest
         end) items
  | _ => true
  end.

(** A [Resolver] element as xml2js delivers it: a string (an element with
    text only) or an object, whose fields [jradeg] and [jdedeg], when
    present, convert to strings. *)
Definition isEntry (e : jsval) : bool :=
  match e with
  | JStr _ => true
  | JObj props =>
      stringifiable (ownProp props (lit "jradeg"))
      && stringifiable (ownProp props (lit "jdedeg"))
  | _ => false
  end.

(** The [Resolver] property of a target block as xml2js delivers it: absent
    ([undefined]) or an array of elements.  Only the first element is
    constrained, the others being never read. *)
Definition isEntryList (r : jsval) : bool :=
  match r with
  | JUndefined => true
  | JArr [] => true
  | JArr (entry :: _) => isEntry entry
  | _ => false
  end.

(** ** Vocabulary of the further properties *)

(** A string is well formed when every surrogate code unit is half of a
    pair: a high surrogate followed by a low one
    ([String.prototype.isWellFormed]). *)
Fixpoint isWellFormed (s : jsstring) : bool :=
  match s with
  | [] => true
  | c :: rest =>
      if isLowSurrogate c then false
      else if isHighSurrogate c then
        match rest with
        | [] => false
        | k :: rest' => isLowSurrogate k && isWellFormed rest'
        end
      else isWellFormed rest
  end.

(** The code letter of a resolver as a code unit. *)
Definition codeUnit (resolver : jsstring) : N :=
  match codeLetter resolver with
  | c :: _ => c
  | [] => 0
  end.

(** [undefined] and [null], the values no property can be read from. *)
Definition isNullish (v : jsval) : bool :=
  match v with
  | JUndefined | JNull => true
  | _ => false
  end.

(** Whether an operation, when issued, calls [fetch]: it is a call that
    passes the four checks with a well-formed target name. *)
Definition issuesRequest (op : Op) : bool :=
  match op with
  | CallTargetPosition (Some s) resolvers =>
      bool_decide (passesValidation (Some s) resolvers) && isWellFormed s
  | _ => false
  end.

(** The characters of a percent-encoded text: the unreserved ones and the
    percent sign. *)
Definition urlSafe (c : N) : Prop := uriUnreserved c = true ∨ c = 0x25.

(** * Properties *)

(** A decidable proposition about concrete data is settled by evaluating
    its decision procedure. *)
Ltac decide_by_computation :=
  apply (bool_decide_unpack _); vm_compute; exact I.

(** ** Run-time helpers *)

Lemma indexOfFrom_absent (a : list jsstring) (x : jsstring) (i : Z) :
  (0 <= i)%Z -> indexOfFrom i a x = (-1)%Z <-> x ∉ a.
Proof.
  revert i. induction a as [|y a IH]; intros i Hi; simpl.
  - split; [intros _; apply not_elem_of_nil | reflexivity].
  - case_bool_decide as Hy.
    + subst y. split; [lia | intros Hx; exfalso; apply Hx; left].
    + rewrite IH by lia. rewrite not_elem_of_cons. split; [auto | tauto].
Qed.

Lemma indexOf_absent (a : list jsstring) (x : jsstring) :
  indexOf a x = (-1)%Z <-> x ∉ a.
Proof. apply indexOfFrom_absent. lia. Qed.

(** The entries kept by the filter of the source are those that match none
    of the supported names after lower-casing. *)
Lemma unsupportedResolvers_spec (resolvers : list jsstring) :
  unsupportedResolvers resolvers
  = filter (fun r => toLowerCase r ∉ SUPPORTED_RESOLVERS) resolvers.
Proof.
  unfold unsupportedResolvers. apply list_filter_iff.
  intros r. apply indexOf_absent.
Qed.

Lemma unsupportedResolvers_nil (resolvers : list jsstring) :
  unsupportedResolvers resolvers = []
  <-> Forall (fun r => toLowerCase r ∈ SUPPORTED_RESOLVERS) resolvers.
Proof.
  rewrite unsupportedResolvers_spec. rewrite Forall_forall.
  induction resolvers as [|r rs IH]; simpl.
  - split; [intros _ x Hx; inversion Hx | reflexivity].
  - rewrite filter_cons. case_decide as Hr.
    + split; [discriminate |]. intros H. exfalso. apply Hr, H. left.
    + rewrite IH. split.
      * intros H x Hx. apply elem_of_cons in Hx as [->|Hx]; [done | by apply H].
      * intros H x Hx. apply H. by right.
Qed.

(** [new Set(a).size] against [a.length]. *)
Lemma set_size_le (l : list jsstring) :
  (size (list_to_set l : gset jsstring) <= length l)%nat.
Proof.
  induction l as [|x l IH].
  - rewrite list_to_set_nil, size_empty. reflexivity.
  - rewrite list_to_set_cons, size_union_alt, size_singleton.
    assert (size ((list_to_set l : gset jsstring) ∖ {[x]})
            <= size (list_to_set l : gset jsstring))%nat.
    { apply subseteq_size. set_solver. }
    simpl. lia.
Qed.

Lemma set_size_NoDup (l : list jsstring) :
  size (list_to_set l : gset jsstring) = length l <-> NoDup l.
Proof.
  split; [|apply size_list_to_set].
  induction l as [|x l IH]; intros Hsz; [constructor|].
  rewrite list_to_set_cons in Hsz.
  destruct (decide (x ∈ l)) as [Hin|Hin].
  - exfalso.
    assert (({[x]} ∪ list_to_set l : gset jsstring) = list_to_set l) as Heq
      by set_solver.
    rewrite Heq in Hsz. pose proof (set_size_le l). simpl in Hsz. lia.
  - constructor; [done|]. apply IH.
    rewrite size_union in Hsz by set_solver.
    rewrite size_singleton in Hsz. simpl in Hsz. lia.
Qed.

Lemma join_empty_separator (l : list jsstring) : join [] l = mjoin l.
Proof.
  induction l as [|x l IH]; [reflexivity|].
  destruct l as [|y l]; simpl in *.
  - by rewrite app_nil_r.
  - by rewrite IH.
Qed.

Lemma trimStart_nil_iff (s : jsstring) :
  trimStart s = [] <-> forallb isWhiteSpace s = true.
Proof.
  induction s as [|c s IH]; simpl; [done|].
  destruct (isWhiteSpace c); simpl; [exact IH | split; discriminate].
Qed.

(** A string trims to the empty string exactly when it holds white space
    only. *)
Lemma trim_nil_iff (s : jsstring) :
  trim s = [] <-> forallb isWhiteSpace s = true.
Proof.
  unfold trim, trimEnd. split.
  - intros H. apply trimStart_nil_iff.
    destruct (trimStart s) as [|c t] eqn:E; [done|].
    exfalso. clear -E H.
    assert (isWhiteSpace c = false) as Hc.
    { induction s as [|a s IH]; simpl in E; [done|].
      destruct (isWhiteSpace a) eqn:Ea; [auto | congruence]. }
    apply (f_equal (@rev N)) in H. rewrite rev_involutive in H. simpl in H.
    apply trimStart_nil_iff in H.
    rewrite forallb_app in H. simpl in H. rewrite Hc in H.
    by rewrite andb_false_r in H.
  - intros H. apply trimStart_nil_iff in H. by rewrite H.
Qed.

(** ** The unit tests of the repository, on the model *)

Example encode_space :
  encodeURIComponent (lit "A Nice Target") = Normal (lit "A%20Nice%20Target").
Proof. reflexivity. Qed.

Example encode_surrogate_pair :
  encodeURIComponent [0xD83D; 0xDE00] = Normal (lit "%F0%9F%98%80").
Proof. reflexivity. Qed.

Example encode_lone_surrogate : encodeURIComponent [0xD800] = Throw uriMalformed.
Proof. reflexivity. Qed.

Example parseFloat_prefix :
  parseFloat (JStr (lit "  12.5abc")) = Normal (S754_finite false 7036874417766400 (-49)).
Proof. reflexivity. Qed.

Example parseFloat_of_array :
  parseFloat (JArr [JStr (lit "+0.5")]) = Normal (S754_finite false 4503599627370496 (-53)).
Proof. reflexivity. Qed.

Example parseFloat_not_a_number :
  parseFloat JUndefined = Normal S754_nan ∧ parseFloat (JStr (lit ".")) = Normal S754_nan
  ∧ parseFloat (JObj []) = Normal S754_nan.
Proof. repeat split; reflexivity. Qed.

Example parseFloat_shadowed_toString :
  parseFloat (JArr [JObj [(lit "toString", JArr [JStr (lit "1")])]]) = Throw cannotConvert.
Proof. reflexivity. Qed.

Example test_white_space_name :
  snd (targetPosition silentHost initialWorld (Some [0x20; 0x09; 0x20; 0x20; 0x0A; 0x0A; 0x20]) None)
  = Rejected (Error (lit "The target name is missing.")).
Proof. reflexivity. Qed.

Example test_empty_resolvers :
  snd (targetPosition silentHost initialWorld (Some (lit "A")) (Some []))
  = Rejected (Error (lit "At least one resolver must be given.")).
Proof. reflexivity. Qed.

Example test_one_unsupported :
  snd (targetPosition silentHost initialWorld (Some (lit "A"))
         (Some [lit "Simbad"; lit "Xft56"; lit "NED"]))
  = Rejected (Error (lit "The following resolver is not supported: Xft56. The available resolvers are Simbad, NED and VizieR.")).
Proof. reflexivity. Qed.

Example test_network_error :
  snd (targetPosition
         (mockHost (Rejected (Error (lit "There was a problem with accessing the web service.")))
                   (Parsed JNull))
         initialWorld (Some (lit "A")) (Some [lit "Simbad"]))
  = Rejected (Error (lit "There was a problem with accessing the web service.")).
Proof. reflexivity. Qed.

Example test_resolver_codes :
  fetchCalls
    (run (setMirror (lit "http://mock.saao.ac.za/") initialWorld)
       [CallTargetPosition (Some (lit "A")) None;
        CallTargetPosition (Some (lit "A")) (Some [lit "VizieR"]);
        CallTargetPosition (Some (lit "A")) (Some [lit "VizieR"; lit "Simbad"]);
        CallTargetPosition (Some (lit "A")) (Some [lit "VizieR"; lit "Simbad"; lit "NED"]);
        CallTargetPosition (Some (lit "A")) (Some [lit "sImbAD"; lit "VIZIEr"; lit "ned"])])
  = [lit "http://mock.saao.ac.za//-ox/SNV?A";
     lit "http://mock.saao.ac.za//-ox/V?A";
     lit "http://mock.saao.ac.za//-ox/VS?A";
     lit "http://mock.saao.ac.za//-ox/VSN?A";
     lit "http://mock.saao.ac.za//-ox/SVN?A"].
Proof. reflexivity. Qed.

Example test_nothing_found :
  snd (targetPosition (mockHost (okResponse (lit "<Sesame>...</Sesame>"))
                                (Parsed nothingFoundReply))
         initialWorld (Some (lit "A")) None)
  = Fulfilled None.
Proof. reflexivity. Qed.

(** Numbers that binary64 holds exactly: 12.5 is 7036874417766400 / 2^49,
    0.75 is 6755399441055744 / 2^53, 99.75 is 7019282231721984 / 2^46 and
    2000 is 8796093022208000 / 2^42. *)
Example test_positions :
  resolved "0" "0"
  = Fulfilled (Some {| rightAscension := S754_zero false;
                       declination := S754_zero false;
                       equinox := S754_finite false 8796093022208000 (-42) |})
  ∧ resolved "+012.5" "-00.75"
    = Fulfilled (Some {| rightAscension := S754_finite false 7036874417766400 (-49);
                         declination := S754_finite true 6755399441055744 (-53);
                         equinox := S754_finite false 8796093022208000 (-42) |})
  ∧ resolved "-0099.75" "+12.5"
    = Fulfilled (Some {| rightAscension := S754_finite true 7019282231721984 (-46);
                         declination := S754_finite false 7036874417766400 (-49);
                         equinox := S754_finite false 8796093022208000 (-42) |}).
Proof. repeat split; reflexivity. Qed.

(** ** The validation sequence *)

Lemma truthy_false_iff (s : jsstring) : truthy s = false <-> s = [].
Proof. destruct s; simpl; split; congruence. Qed.

Lemma trimmedTargetName_Some (s : jsstring) : trimmedTargetName (Some s) = trim s.
Proof.
  unfold trimmedTargetName. destruct s as [|c s]; [reflexivity|].
  simpl truthy. cbv iota. by destruct (trim (c :: s)).
Qed.

(** When the four checks pass, the executor goes on to encode the target
    name and to build the URL. *)
Lemma requestUrl_passes (base : jsstring) (targetName : option jsstring)
    (rs : list jsstring) :
  trimmedTargetName targetName ≠ [] ->
  Forall (fun r => toLowerCase r ∈ SUPPORTED_RESOLVERS) rs ->
  rs ≠ [] ->
  NoDup (toLowerCase <$> rs) ->
  requestUrl base targetName rs
  = (encoded ← encodedTargetName targetName;
     Normal (base ++ lit "/-ox/" ++ resolverCode (lowerCaseResolvers rs)
             ++ lit "?" ++ encoded)).
Proof.
  intros Hname Hsup Hne Hnd. unfold requestUrl.
  destruct (truthy (trimmedTargetName targetName)) eqn:Ht;
    [|by apply truthy_false_iff in Ht].
  apply unsupportedResolvers_nil in Hsup. rewrite Hsup. simpl negb. cbv iota.
  rewrite bool_decide_eq_false_2 by (simpl; lia).
  rewrite bool_decide_eq_false_2
    by (unfold lowerCaseResolvers; rewrite length_fmap; by destruct rs).
  rewrite bool_decide_eq_false_2; [reflexivity|].
  intros Hsz. apply Hsz. by apply set_size_NoDup.
Qed.

(** Conversely, a URL is built only when the four checks have passed. *)
Lemma requestUrl_Normal_inv (base : jsstring) (targetName : option jsstring)
    (rs : list jsstring) (url : jsstring) :
  requestUrl base targetName rs = Normal url ->
  trimmedTargetName targetName ≠ []
  ∧ Forall (fun r => toLowerCase r ∈ SUPPORTED_RESOLVERS) rs
  ∧ rs ≠ []
  ∧ NoDup (toLowerCase <$> rs).
Proof.
  unfold requestUrl.
  destruct (truthy (trimmedTargetName targetName)) eqn:Ht; simpl; [|discriminate].
  case_bool_decide as Hu; [discriminate|].
  case_bool_decide as He; [discriminate|].
  case_bool_decide as Hd; [discriminate|].
  intros _. repeat split.
  - intros E. by rewrite E in Ht.
  - apply unsupportedResolvers_nil.
    destruct (unsupportedResolvers rs); [done | simpl in Hu; lia].
  - intros ->. by apply He.
  - apply set_size_NoDup. exact Hd.
Qed.

Lemma start_Throw (w : World) targetName resolvers (e : JsError) :
  requestUrl (BASE_URL w) targetName (default defaultResolvers resolvers) = Throw e ->
  start w targetName resolvers = (w, Throw e).
Proof. intros H. unfold start. by rewrite H. Qed.

Lemma start_Normal (w : World) targetName resolvers (url : jsstring) :
  requestUrl (BASE_URL w) targetName (default defaultResolvers resolvers) = Normal url ->
  start w targetName resolvers
  = ({| BASE_URL := BASE_URL w; fetchCalls := fetchCalls w ++ [url] |}, Normal url).
Proof. intros H. unfold start. by rewrite H. Qed.

Lemma start_Normal_inv (w w' : World) targetName resolvers (url : jsstring) :
  start w targetName resolvers = (w', Normal url) ->
  requestUrl (BASE_URL w) targetName (default defaultResolvers resolvers) = Normal url
  ∧ w' = {| BASE_URL := BASE_URL w; fetchCalls := fetchCalls w ++ [url] |}.
Proof.
  unfold start.
  destruct (requestUrl _ _ _) as [u|e]; intros H; inversion H; by subst.
Qed.

(** A call that issues its request has passed the four checks. *)
Lemma start_Normal_passes (w w' : World) targetName resolvers (url : jsstring) :
  start w targetName resolvers = (w', Normal url) ->
  passesValidation targetName resolvers.
Proof.
  intros H. apply start_Normal_inv in H as [H _].
  by apply requestUrl_Normal_inv in H.
Qed.

Lemma targetPosition_Throw (h : Host) (w : World) targetName resolvers e :
  start w targetName resolvers = (w, Throw e) ->
  targetPosition h w targetName resolvers = (w, Rejected e).
Proof. intros H. unfold targetPosition. by rewrite H. Qed.

Lemma targetPosition_Normal (h : Host) (w w' : World) targetName resolvers url :
  start w targetName resolvers = (w', Normal url) ->
  targetPosition h w targetName resolvers = (w', settlement h url).
Proof. intros H. unfold targetPosition. by rewrite H. Qed.

(** ** Claims about validation *)

(** C5.  A target name whose trimmed value is empty - by [trim_nil_iff] the
    empty string or a string of white space only - or that is absent
    ([null] or [undefined]) makes [targetPosition] reject in its
    synchronous part with the error "The target name is missing.": [fetch]
    is not called, the record of requests and the endpoint being left as
    they were. *)
Theorem missing_target_name_rejected (h : Host) (w : World)
    (targetName : option jsstring) (resolvers : option (list jsstring)) :
  (forall s, targetName = Some s -> trim s = []) ->
  start w targetName resolvers
  = (w, Throw (Error (lit "The target name is missing.")))
  ∧ targetPosition h w targetName resolvers
    = (w, Rejected (Error (lit "The target name is missing."))).
Proof.
  intros Hblank.
  assert (trimmedTargetName targetName = []) as Ht.
  { destruct targetName as [s|]; [|reflexivity].
    rewrite trimmedTargetName_Some. by apply Hblank. }
  assert (start w targetName resolvers
          = (w, Throw (Error (lit "The target name is missing.")))) as Hs.
  { apply start_Throw. unfold requestUrl. by rewrite Ht. }
  split; [done|]. by apply targetPosition_Throw.
Qed.

Lemma missing_target_name_rejected_witness :
  trim [0x20; 0x09; 0x20; 0x20] = []
  ∧ start initialWorld (Some [0x20; 0x09; 0x20; 0x20]) None
    = (initialWorld, Throw (Error (lit "The target name is missing.")))
  ∧ targetPosition silentHost initialWorld (Some [0x20; 0x09; 0x20; 0x20]) None
    = (initialWorld, Rejected (Error (lit "The target name is missing."))).
Proof.
  split; [reflexivity|].
  apply (missing_target_name_rejected silentHost initialWorld
           (Some [0x20; 0x09; 0x20; 0x20]) None).
  intros s Hs. inversion Hs. reflexivity.
Defined.

(** C6, as stated, fails: with a blank target name the first check rejects
    before the resolvers are looked at, so a selection holding the
    unsupported entry [Xft56] is answered with the message about the target
    name, not with one naming [Xft56]. *)
Lemma unsupported_resolver_blank_name_counterexample :
  filter (fun r => toLowerCase r ∉ SUPPORTED_RESOLVERS) [lit "Xft56"] = [lit "Xft56"]
  ∧ targetPosition silentHost initialWorld (Some (lit "")) (Some [lit "Xft56"])
    = (initialWorld, Rejected (Error (lit "The target name is missing.")))
  ∧ lit "The target name is missing." ≠ unsupportedMessage [lit "Xft56"].
Proof. split; [reflexivity|]. split; [reflexivity|]. discriminate. Qed.

(** C6, amended.  When the target name is not blank and the selection holds
    entries that match none of [ned], [simbad], [vizier] after lower-casing,
    [targetPosition] rejects in its synchronous part, without calling
    [fetch], with a message that names exactly those entries, in the order
    given and joined by a comma and a space, worded "resolver ... is" for one
    entry and "resolvers ... are" for several. *)
Theorem unsupported_resolvers_rejected (h : Host) (w : World)
    (targetName : option jsstring) (rs : list jsstring) :
  trimmedTargetName targetName ≠ [] ->
  filter (fun r => toLowerCase r ∉ SUPPORTED_RESOLVERS) rs ≠ [] ->
  let unsupported := filter (fun r => toLowerCase r ∉ SUPPORTED_RESOLVERS) rs in
  let msg :=
    lit "The following resolver"
    ++ (if decide (length unsupported = 1%nat) then lit " is" else lit "s are")
    ++ lit " not supported: " ++ join (lit ", ") unsupported
    ++ lit ". The available resolvers are Simbad, NED and VizieR." in
  start w targetName (Some rs) = (w, Throw (Error msg))
  ∧ targetPosition h w targetName (Some rs) = (w, Rejected (Error msg)).
Proof.
  intros Hname Hu. cbv zeta.
  remember (filter (fun r => toLowerCase r ∉ SUPPORTED_RESOLVERS) rs)
    as unsupported eqn:Eu.
  match goal with |- start _ _ _ = (_, Throw (Error ?m)) ∧ _ => set (msg := m) end.
  assert (start w targetName (Some rs) = (w, Throw (Error msg))) as Hs.
  { apply start_Throw. simpl default. unfold requestUrl.
    destruct (truthy (trimmedTargetName targetName)) eqn:Ht;
      [|by apply truthy_false_iff in Ht].
    simpl negb. cbv iota. rewrite unsupportedResolvers_spec, <- Eu.
    rewrite bool_decide_eq_true_2
      by (destruct unsupported; [done | simpl; lia]).
    do 2 f_equal. unfold unsupportedMessage, msg.
    destruct (decide (length unsupported = 1%nat)) as [E|E].
    - by rewrite bool_decide_eq_false_2 by (intros H'; by apply H').
    - by rewrite bool_decide_eq_true_2. }
  split; [done|]. by apply targetPosition_Throw.
Qed.

Lemma unsupported_resolvers_rejected_witness :
  start initialWorld (Some (lit "A"))
    (Some [lit "Simbad"; lit "Xft56"; lit "NED"; lit "A56tyu"])
  = (initialWorld,
     Throw (Error (lit "The following resolvers are not supported: Xft56, A56tyu. The available resolvers are Simbad, NED and VizieR.")))
  ∧ targetPosition silentHost initialWorld (Some (lit "A"))
      (Some [lit "Simbad"; lit "Xft56"; lit "NED"; lit "A56tyu"])
    = (initialWorld,
       Rejected (Error (lit "The following resolvers are not supported: Xft56, A56tyu. The available resolvers are Simbad, NED and VizieR."))).
Proof.
  apply (unsupported_resolvers_rejected silentHost initialWorld (Some (lit "A"))
           [lit "Simbad"; lit "Xft56"; lit "NED"; lit "A56tyu"]);
    vm_compute; discriminate.
Defined.

(** C7, as stated, fails for the same reason: with a blank target name the
    selection [Simbad, simbad] is answered with the message about the target
    name, not with the one about a resolver used twice. *)
Lemma duplicate_resolver_blank_name_counterexample :
  Forall (fun r => toLowerCase r ∈ SUPPORTED_RESOLVERS) [lit "Simbad"; lit "simbad"]
  ∧ ¬ NoDup (toLowerCase <$> [lit "Simbad"; lit "simbad"])
  ∧ targetPosition silentHost initialWorld (Some (lit " "))
      (Some [lit "Simbad"; lit "simbad"])
    = (initialWorld, Rejected (Error (lit "The target name is missing.")))
  ∧ lit "The target name is missing."
    ≠ lit "A resolver may be used only once in the array of resolvers.".
Proof.
  split; [decide_by_computation|].
  split; [decide_by_computation|].
  split; [reflexivity | discriminate].
Qed.

(** C7, amended.  When the target name is not blank, every entry of the
    selection is a supported name, and some name occurs more than once after
    lower-casing, [targetPosition] rejects in its synchronous part, without
    calling [fetch], with the message "A resolver may be used only once in
    the array of resolvers." *)
Theorem duplicate_resolver_rejected (h : Host) (w : World)
    (targetName : option jsstring) (rs : list jsstring) :
  trimmedTargetName targetName ≠ [] ->
  Forall (fun r => toLowerCase r ∈ SUPPORTED_RESOLVERS) rs ->
  ¬ NoDup (toLowerCase <$> rs) ->
  start w targetName (Some rs)
  = (w, Throw (Error (lit "A resolver may be used only once in the array of resolvers.")))
  ∧ targetPosition h w targetName (Some rs)
    = (w, Rejected (Error (lit "A resolver may be used only once in the array of resolvers."))).
Proof.
  intros Hname Hsup Hdup.
  assert (start w targetName (Some rs)
          = (w, Throw (Error (lit "A resolver may be used only once in the array of resolvers."))))
    as Hs.
  { apply start_Throw. simpl default. unfold requestUrl.
    destruct (truthy (trimmedTargetName targetName)) eqn:Ht;
      [|by apply truthy_false_iff in Ht].
    apply unsupportedResolvers_nil in Hsup. rewrite Hsup. simpl negb. cbv iota.
    rewrite bool_decide_eq_false_2 by (simpl; lia).
    rewrite bool_decide_eq_false_2.
    - rewrite bool_decide_eq_true_2; [reflexivity|].
      intros Hsz. by apply Hdup, set_size_NoDup.
    - unfold lowerCaseResolvers. rewrite length_fmap.
      destruct rs; [|done]. exfalso. apply Hdup. constructor. }
  split; [done|]. by apply targetPosition_Throw.
Qed.

Lemma duplicate_resolver_rejected_witness :
  start initialWorld (Some (lit "A"))
    (Some [lit "Simbad"; lit "NED"; lit "simbad"; lit "VizieR"])
  = (initialWorld,
     Throw (Error (lit "A resolver may be used only once in the array of resolvers.")))
  ∧ targetPosition silentHost initialWorld (Some (lit "A"))
      (Some [lit "Simbad"; lit "NED"; lit "simbad"; lit "VizieR"])
    = (initialWorld,
       Rejected (Error (lit "A resolver may be used only once in the array of resolvers."))).
Proof.
  apply (duplicate_resolver_rejected silentHost initialWorld (Some (lit "A"))
           [lit "Simbad"; lit "NED"; lit "simbad"; lit "VizieR"]).
  - vm_compute; discriminate.
  - decide_by_computation.
  - decide_by_computation.
Defined.

(** ** Claims about the request *)

(** C2, as stated, fails: a target name holding a surrogate code unit that is
    not part of a pair passes the four checks, but [encodeURIComponent]
    throws a URIError on it; the promise is rejected and no GET request is
    made at all. *)
Lemma lone_surrogate_no_request_counterexample :
  passesValidation (Some [0xD800]) None
  ∧ start initialWorld (Some [0xD800]) None = (initialWorld, Throw uriMalformed)
  ∧ targetPosition silentHost initialWorld (Some [0xD800]) None
    = (initialWorld, Rejected uriMalformed)
  ∧ fetchCalls (fst (targetPosition silentHost initialWorld (Some [0xD800]) None)) = [].
Proof.
  split; [decide_by_computation|].
  split; [reflexivity|]. split; reflexivity.
Qed.

(** C2, amended.  A call that passes validation and whose target name can be
    percent-encoded (it holds no unpaired surrogate) makes exactly one GET
    request; its URL is the endpoint in force, then [/-ox/], then the code
    letters of the lower-cased resolver names in the order of the selection
    (simbad gives S, ned gives N, vizier gives V; the default selection
    gives SNV), then [?] and the percent-encoding of the target name as it
    was passed, neither trimmed nor changed in case. *)
Theorem request_url_format (w : World) (s : jsstring)
    (resolvers : option (list jsstring)) (enc : jsstring) :
  passesValidation (Some s) resolvers ->
  encodeURIComponent s = Normal enc ->
  let selection := default defaultResolvers resolvers in
  let codes := mjoin (codeLetter <$> (toLowerCase <$> selection)) in
  let url := BASE_URL w ++ lit "/-ox/" ++ codes ++ lit "?" ++ enc in
  start w (Some s) resolvers
  = ({| BASE_URL := BASE_URL w; fetchCalls := fetchCalls w ++ [url] |}, Normal url)
  ∧ Forall (fun r =>
              (toLowerCase r = lit "simbad" ∧ codeLetter (toLowerCase r) = lit "S")
              ∨ (toLowerCase r = lit "ned" ∧ codeLetter (toLowerCase r) = lit "N")
              ∨ (toLowerCase r = lit "vizier" ∧ codeLetter (toLowerCase r) = lit "V"))
           selection
  ∧ (resolvers = None -> codes = lit "SNV").
Proof.
  intros (Hname & Hsup & Hne & Hnd) Henc. cbv zeta. split; [|split].
  - apply start_Normal. rewrite requestUrl_passes by done.
    simpl encodedTargetName. rewrite Henc.
    unfold resolverCode, lowerCaseResolvers. by rewrite join_empty_separator.
  - eapply Forall_impl; [exact Hsup|]. intros r Hr. simpl in Hr.
    unfold SUPPORTED_RESOLVERS in Hr.
    repeat (apply elem_of_cons in Hr as [->|Hr]); [| | |by inversion Hr].
    + right; left. split; reflexivity.
    + left. split; reflexivity.
    + right; right. split; reflexivity.
  - intros ->. reflexivity.
Qed.

Lemma request_url_format_witness :
  start (setMirror (lit "http://mock.saao.ac.za/") initialWorld)
    (Some (lit " A Nice Target")) (Some [lit "sImbAD"; lit "VIZIEr"; lit "ned"])
  = ({| BASE_URL := lit "http://mock.saao.ac.za/";
        fetchCalls := [lit "http://mock.saao.ac.za//-ox/SVN?%20A%20Nice%20Target"] |},
     Normal (lit "http://mock.saao.ac.za//-ox/SVN?%20A%20Nice%20Target")).
Proof.
  apply (request_url_format (setMirror (lit "http://mock.saao.ac.za/") initialWorld)
           (lit " A Nice Target") (Some [lit "sImbAD"; lit "VIZIEr"; lit "ned"])
           (lit "%20A%20Nice%20Target")).
  - decide_by_computation.
  - reflexivity.
Defined.

(** ** The endpoint *)

Lemma start_BASE_URL (w : World) targetName resolvers :
  BASE_URL (fst (start w targetName resolvers)) = BASE_URL w.
Proof. unfold start. by destruct (requestUrl _ _ _). Qed.

Lemma step_BASE_URL (w : World) (op : Op) :
  BASE_URL (step w op)
  = match op with
    | CallSetMirror url => url
    | CallTargetPosition _ _ => BASE_URL w
    end.
Proof. destruct op; simpl; [apply start_BASE_URL | reflexivity]. Qed.

(** After any sequence of operations the endpoint is the argument of the
    last [setMirror] among them, or the initial one. *)
Lemma run_BASE_URL (w : World) (ops : list Op) :
  BASE_URL (run w ops) = lastMirror (BASE_URL w) ops.
Proof.
  unfold run, lastMirror. revert w.
  induction ops as [|op ops IH]; intros w; simpl; [reflexivity|].
  rewrite IH, step_BASE_URL. by destruct op.
Qed.

(** The record of requests only grows. *)
Lemma step_fetchCalls (w : World) (op : Op) :
  exists later, fetchCalls (step w op) = fetchCalls w ++ later.
Proof.
  destruct op as [targetName resolvers|url]; simpl.
  - unfold start. destruct (requestUrl _ _ _) as [u|e]; simpl.
    + by exists [u].
    + exists []. by rewrite app_nil_r.
  - exists []. by rewrite app_nil_r.
Qed.

Lemma run_fetchCalls (w : World) (ops : list Op) :
  exists later, fetchCalls (run w ops) = fetchCalls w ++ later.
Proof.
  unfold run. revert w.
  induction ops as [|op ops IH]; intros w; simpl.
  - exists []. by rewrite app_nil_r.
  - destruct (IH (step w op)) as [l2 H2].
    destruct (step_fetchCalls w op) as [l1 H1].
    exists (l1 ++ l2). by rewrite H2, H1, app_assoc.
Qed.

(** The URL is the endpoint followed by a path that does not depend on
    it. *)
Lemma requestUrl_base (base : jsstring) targetName rs (url : jsstring) :
  requestUrl base targetName rs = Normal url ->
  exists path, url = base ++ path
    ∧ forall base', requestUrl base' targetName rs = Normal (base' ++ path).
Proof.
  intros H. pose proof (requestUrl_Normal_inv _ _ _ _ H) as (H1 & H2 & H3 & H4).
  rewrite requestUrl_passes in H by done.
  destruct (encodedTargetName targetName) as [enc|e] eqn:E; [|discriminate].
  inversion H; subst url.
  exists (lit "/-ox/" ++ resolverCode (lowerCaseResolvers rs) ++ lit "?" ++ enc).
  split; [reflexivity|]. intros base'.
  rewrite requestUrl_passes by done. by rewrite E.
Qed.

(** C8.  The URL of a call is built, in the synchronous part of the call,
    from the endpoint in force at that moment - the argument of the last
    [setMirror] issued before the call, or the initial endpoint.  Whatever is
    issued afterwards, [setMirror] included, the request recorded for the
    call keeps this URL, and the promise of the call settles from this URL
    alone.  [setMirror] stores the string it is given, whatever it is. *)
Theorem endpoint_read_at_construction (h : Host) (w : World)
    (before after : list Op) (targetName : option jsstring)
    (resolvers : option (list jsstring)) (w1 : World) (url : jsstring) :
  start (run w before) targetName resolvers = (w1, Normal url) ->
  (exists path,
      url = lastMirror (BASE_URL w) before ++ path
      ∧ forall w0,
          snd (start w0 targetName resolvers) = Normal (BASE_URL w0 ++ path))
  ∧ (exists later,
        fetchCalls (run w (before ++ CallTargetPosition targetName resolvers :: after))
        = fetchCalls (run w before) ++ url :: later)
  ∧ targetPosition h (run w before) targetName resolvers = (w1, settlement h url)
  ∧ (forall u w0, setMirror u w0 = {| BASE_URL := u; fetchCalls := fetchCalls w0 |}).
Proof.
  intros Hs. split; [|split; [|split]].
  - apply start_Normal_inv in Hs as [Hu _].
    apply requestUrl_base in Hu as (path & Hurl & Hany).
    exists path. rewrite <- run_BASE_URL. split; [done|].
    intros w0. unfold start. by rewrite Hany.
  - unfold run. rewrite fold_left_app. simpl fold_left.
    fold (run w before). rewrite Hs. simpl fst.
    destruct (run_fetchCalls w1 after) as [later Hl]. unfold run in Hl.
    apply start_Normal_inv in Hs as [_ ->]. simpl in Hl.
    exists later. by rewrite Hl, <- app_assoc.
  - by apply targetPosition_Normal.
  - reflexivity.
Qed.

Lemma endpoint_read_at_construction_witness :
  (exists path,
      lit "http://a/-ox/S?X" = lastMirror (BASE_URL initialWorld) [CallSetMirror (lit "http://a")] ++ path
      ∧ forall w0,
          snd (start w0 (Some (lit "X")) (Some [lit "Simbad"]))
          = Normal (BASE_URL w0 ++ path))
  ∧ (exists later,
        fetchCalls (run initialWorld
                      ([CallSetMirror (lit "http://a")]
                       ++ CallTargetPosition (Some (lit "X")) (Some [lit "Simbad"])
                          :: [CallSetMirror (lit "http://b")]))
        = fetchCalls (run initialWorld [CallSetMirror (lit "http://a")])
          ++ lit "http://a/-ox/S?X" :: later)
  ∧ targetPosition silentHost (run initialWorld [CallSetMirror (lit "http://a")])
      (Some (lit "X")) (Some [lit "Simbad"])
    = ({| BASE_URL := lit "http://a"; fetchCalls := [lit "http://a/-ox/S?X"] |},
       settlement silentHost (lit "http://a/-ox/S?X"))
  ∧ (forall u w0, setMirror u w0 = {| BASE_URL := u; fetchCalls := fetchCalls w0 |}).
Proof.
  apply (endpoint_read_at_construction silentHost initialWorld
           [CallSetMirror (lit "http://a")] [CallSetMirror (lit "http://b")]
           (Some (lit "X")) (Some [lit "Simbad"])).
  reflexivity.
Defined.

(** C10.  A call to [targetPosition] leaves the endpoint as it found it,
    whatever its arguments and whatever the host does; [setMirror] changes
    the endpoint and nothing else; hence the endpoint after any sequence of
    operations is the argument of the last [setMirror], or the initial
    one. *)
Theorem endpoint_changed_by_setMirror_only :
  (forall (h : Host) (w : World) targetName resolvers,
      BASE_URL (fst (targetPosition h w targetName resolvers)) = BASE_URL w)
  ∧ (forall (url : jsstring) (w : World),
        BASE_URL (setMirror url w) = url
        ∧ fetchCalls (setMirror url w) = fetchCalls w)
  ∧ (forall (w : World) (ops : list Op),
        BASE_URL (run w ops) = lastMirror (BASE_URL w) ops).
Proof.
  split; [|split].
  - intros h w targetName resolvers.
    pose proof (start_BASE_URL w targetName resolvers) as H.
    unfold targetPosition.
    destruct (start w targetName resolvers) as [w' [url|e]]; exact H.
  - intros url w. split; reflexivity.
  - apply run_BASE_URL.
Qed.

(** ** Settlement *)

Lemma handleResponse_parsed (h : Host) (body : jsstring) (root : jsval) :
  xml2js h body = Parsed root ->
  handleResponse h (body, true) = extractTarget None root.
Proof. intros Hx. unfold handleResponse, parseString. simpl. by rewrite Hx. Qed.

Lemma stringifiable_ToString (v : jsval) :
  stringifiable v = true -> exists s, ToString v = Normal s.
Proof.
  revert v. fix IH 1. intros [| |s|items|props] Hv.
  - by eexists.
  - by eexists.
  - by eexists.
  - simpl in *.
    enough (exists parts,
              (fix each (l : list jsval) : completion (list jsstring) :=
                 match l with
                 | [] => Normal []
                 | x :: rest =>
                     s ← match x with
                         | JUndefined | JNull => Normal []
                         | _ => ToString x
                         end;
                     ss ← each rest;
                     Normal (s :: ss)
                 end) items = Normal parts) as [parts ->] by (by eexists).
    induction items as [|x items IHitems]; [by eexists|].
    apply andb_true_iff in Hv as [Hx Hrest].
    destruct (IHitems Hrest) as [ss ->].
    destruct (IH x Hx) as [sx Hsx].
    destruct x; try (rewrite Hsx); by eexists.
  - simpl in *. destruct (hasOwnProperty props (lit "toString")); [discriminate|].
    by eexists.
Qed.

(** The two fields of a [Resolver] element can be read and parsed without
    an exception. *)
Lemma isEntry_fields (e : jsval) :
  isEntry e = true ->
  exists a d ra dec,
    getProp e (lit "jradeg") = Normal a ∧ getProp e (lit "jdedeg") = Normal d
    ∧ parseFloat a = Normal ra ∧ parseFloat d = Normal dec.
Proof.
  intros He. destruct e as [| |s| |props]; simpl in He; try discriminate.
  - exists JUndefined, JUndefined. by do 2 eexists.
  - apply andb_true_iff in He as [Ha Hd].
    apply stringifiable_ToString in Ha as [sa Ha].
    apply stringifiable_ToString in Hd as [sd Hd].
    exists (ownProp props (lit "jradeg")), (ownProp props (lit "jdedeg")).
    unfold parseFloat. rewrite Ha, Hd. by do 2 eexists.
Qed.

(** What the callback does with a reply whose first target block has at
    least one [Resolver] entry. *)
Lemma extractTarget_entries (err : option JsError) (root e : jsval)
    (rest : list jsval) (a d : jsval) (ra dec : number) :
  resolverOf root = Normal (JArr (e :: rest)) ->
  getProp e (lit "jradeg") = Normal a ->
  getProp e (lit "jdedeg") = Normal d ->
  parseFloat a = Normal ra ->
  parseFloat d = Normal dec ->
  extractTarget err root
  = if negb (isNaN ra) && negb (isNaN dec) then
      Normal (Some {| rightAscension := ra;
                      declination := dec;
                      equinox := numberOfZ 2000 |})
    else Normal None.
Proof.
  intros Hr Ha Hd Hra Hdec. unfold extractTarget. rewrite Hr. simpl.
  unfold firstEntryNumber. simpl. rewrite Ha. simpl. rewrite Hra. simpl.
  rewrite Hd. simpl. rewrite Hdec. reflexivity.
Qed.

(** The claims about the response share their setting: a call that has
    passed the four checks and issued its request to [url] (by
    [start_Normal_passes] a request is issued only then), a response [res]
    to that request, and the text [body] read from it. *)
Section Answered.

Context (h : Host) (w w' : World).
Context (targetName : option jsstring) (resolvers : option (list jsstring)).
Context (url : jsstring) (res : Response) (body : jsstring).

Hypothesis issued : start w targetName resolvers = (w', Normal url).
Hypothesis answered : fetch h url = Fulfilled res.
Hypothesis bodyRead : text res = Fulfilled body.

(** Once the response has arrived and its body has been read, the promise
    settles as the handler of the parsed response completes. *)
Lemma targetPosition_answered :
  targetPosition h w targetName resolvers
  = (w', settle (handleResponse h (body, ok res))).
Proof.
  unfold targetPosition. rewrite issued.
  unfold settlement. rewrite answered. simpl.
  unfold parseText. by rewrite bodyRead.
Qed.

(** C4.  When a call has passed validation and issued its request, and the
    response has a non-success status, the promise is rejected with an
    [Error] whose message is the whole text of the response body. *)
Theorem service_error_rejected :
  ok res = false ->
  targetPosition h w targetName resolvers = (w', Rejected (Error body))
  ∧ message (Error body) = body.
Proof.
  intros Hok. split; [|reflexivity].
  rewrite targetPosition_answered, Hok. reflexivity.
Qed.

(** C9.  When the response has a success status but its body is not
    well-formed XML, the parser calls the callback with its error and no
    root; the callback reads [Sesame] from [undefined], which throws, and the
    promise is rejected with that TypeError: the failed parse fails the
    whole operation, which is fulfilled neither with a position nor with
    [null]. *)
Theorem malformed_xml_rejected (err : JsError) :
  ok res = true ->
  xml2js h body = Malformed err ->
  targetPosition h w targetName resolvers
  = (w', Rejected (cannotRead (lit "Sesame") "undefined"))
  ∧ (forall value,
        snd (targetPosition h w targetName resolvers) ≠ Fulfilled value).
Proof.
  intros Hok Hx.
  assert (targetPosition h w targetName resolvers
          = (w', Rejected (cannotRead (lit "Sesame") "undefined"))) as H.
  { rewrite targetPosition_answered, Hok.
    unfold handleResponse, parseString. simpl. by rewrite Hx. }
  split; [done|]. intros value. by rewrite H.
Qed.

(** C1, amended.  When a call has passed validation and issued its request,
    the response has a success status, its body parses, the [Resolver]
    array of the first target block of the reply is not empty, and the
    fields [jradeg] and [jdedeg] of its first entry both parse as numbers,
    the promise is fulfilled with the position whose right ascension and
    declination are those two numbers and whose equinox is 2000; the
    entries after the first play no part. *)
Theorem first_entry_position (root entry : jsval) (others : list jsval)
    (a d : jsval) (ra dec : number) :
  ok res = true ->
  xml2js h body = Parsed root ->
  resolverOf root = Normal (JArr (entry :: others)) ->
  getProp entry (lit "jradeg") = Normal a ->
  getProp entry (lit "jdedeg") = Normal d ->
  parseFloat a = Normal ra ->
  parseFloat d = Normal dec ->
  isNaN ra = false ->
  isNaN dec = false ->
  targetPosition h w targetName resolvers
  = (w', Fulfilled (Some {| rightAscension := ra;
                            declination := dec;
                            equinox := numberOfZ 2000 |})).
Proof.
  intros Hok Hx Hr Ha Hd Hra Hdec Hna Hnd.
  rewrite targetPosition_answered, Hok.
  rewrite (handleResponse_parsed _ _ _ Hx).
  rewrite (extractTarget_entries _ _ _ _ _ _ _ _ Hr Ha Hd Hra Hdec), Hna, Hnd.
  reflexivity.
Qed.

(** C3, amended.  When a call has issued its request, the response has a
    success status, and its body parses to a reply with a [Sesame] root and a
    first target block, whose [Resolver] property is, as xml2js delivers
    it, absent or an array of elements, the promise is fulfilled, never
    rejected; and it is fulfilled with [null] exactly when that property is
    absent, or is the empty array, or the field [jradeg] or the field
    [jdedeg] of its first entry does not parse as a number. *)
Theorem no_result_iff (root r : jsval) :
  ok res = true ->
  xml2js h body = Parsed root ->
  resolverOf root = Normal r ->
  isEntryList r = true ->
  exists value,
    targetPosition h w targetName resolvers = (w', Fulfilled value)
    ∧ (value = None
       <-> r = JUndefined
           ∨ r = JArr []
           ∨ exists entry others a d ra dec,
               r = JArr (entry :: others)
               ∧ getProp entry (lit "jradeg") = Normal a
               ∧ getProp entry (lit "jdedeg") = Normal d
               ∧ parseFloat a = Normal ra
               ∧ parseFloat d = Normal dec
               ∧ (isNaN ra = true ∨ isNaN dec = true)).
Proof.
  intros Hok Hx Hr Hel.
  rewrite targetPosition_answered, Hok.
  rewrite (handleResponse_parsed _ _ _ Hx).
  destruct r as [| |s|[|entry others]|props]; simpl in Hel; try discriminate.
  - (* absent *)
    exists None. unfold extractTarget. rewrite Hr. simpl. split; [done|]. tauto.
  - (* empty *)
    exists None. unfold extractTarget. rewrite Hr. simpl. split; [done|]. tauto.
  - (* at least one entry *)
    destruct (isEntry_fields _ Hel) as (a & d & ra & dec & Ha & Hd & Hra & Hdec).
    rewrite (extractTarget_entries _ _ _ _ _ _ _ _ Hr Ha Hd Hra Hdec).
    destruct (isNaN ra) eqn:Ea; simpl.
    + exists None. split; [done|]. split; [|done]. intros _.
      right; right. exists entry, others, a, d, ra, dec. tauto.
    + destruct (isNaN dec) eqn:Ed; simpl.
      * exists None. split; [done|]. split; [|done]. intros _.
        right; right. exists entry, others, a, d, ra, dec. tauto.
      * eexists. split; [reflexivity|]. split; [discriminate|].
        intros [H|[H|(e' & o' & a' & d' & ra' & dec' & H & Ha' & Hd' & Hra' & Hdec' & Hnan)]];
          try discriminate.
        inversion H; subst e' o'.
        rewrite Ha in Ha'. rewrite Hd in Hd'.
        inversion Ha'; inversion Hd'; subst a' d'.
        rewrite Hra in Hra'. rewrite Hdec in Hdec'.
        inversion Hra'; inversion Hdec'; subst ra' dec'.
        rewrite Ea, Ed in Hnan. destruct Hnan; discriminate.
Qed.

End Answered.

(** ** The claims about the response, on concrete replies *)

Lemma service_error_rejected_witness :
  targetPosition
    (mockHost (Fulfilled {| ok := false; text := Fulfilled (lit "Sesame is not happy.") |})
              (Parsed JNull))
    initialWorld (Some (lit "A")) (Some [lit "Simbad"])
  = ({| BASE_URL := BASE_URL initialWorld;
        fetchCalls := [BASE_URL initialWorld ++ lit "/-ox/S?A"] |},
     Rejected (Error (lit "Sesame is not happy.")))
  ∧ message (Error (lit "Sesame is not happy.")) = lit "Sesame is not happy.".
Proof.
  apply (service_error_rejected
           (mockHost (Fulfilled {| ok := false; text := Fulfilled (lit "Sesame is not happy.") |})
                     (Parsed JNull))
           initialWorld _ (Some (lit "A")) (Some [lit "Simbad"])
           (BASE_URL initialWorld ++ lit "/-ox/S?A")
           {| ok := false; text := Fulfilled (lit "Sesame is not happy.") |});
    reflexivity.
Defined.

Lemma malformed_xml_rejected_witness :
  targetPosition
    (mockHost (okResponse (lit "<Sesame><Target>"))
              (Malformed (Error (lit "Unclosed root tag"))))
    initialWorld (Some (lit "A")) None
  = ({| BASE_URL := BASE_URL initialWorld;
        fetchCalls := [BASE_URL initialWorld ++ lit "/-ox/SNV?A"] |},
     Rejected (TypeError (lit "Cannot read property 'Sesame' of undefined")))
  ∧ (forall value,
        snd (targetPosition
               (mockHost (okResponse (lit "<Sesame><Target>"))
                         (Malformed (Error (lit "Unclosed root tag"))))
               initialWorld (Some (lit "A")) None)
        ≠ Fulfilled value).
Proof.
  apply (malformed_xml_rejected
           (mockHost (okResponse (lit "<Sesame><Target>"))
                     (Malformed (Error (lit "Unclosed root tag"))))
           initialWorld _ (Some (lit "A")) None
           (BASE_URL initialWorld ++ lit "/-ox/SNV?A")
           {| ok := true; text := Fulfilled (lit "<Sesame><Target>") |}
           (lit "<Sesame><Target>"))
    with (err := Error (lit "Unclosed root tag"));
    reflexivity.
Defined.

(** C1, as stated, fails: only the first [Resolver] entry is read.  In this
    reply the first entry has a right ascension that is no number and the
    second entry has two numeric fields; validation passes, the response has
    a success status, the reply holds an entry whose two fields parse, yet
    the promise is fulfilled with [null]. *)
Lemma later_entry_ignored_counterexample :
  passesValidation (Some (lit "A")) None
  ∧ resolverOf (sesameReply [resolverEntry "n/a" "+05.98"; resolverEntry "10.5" "-3.25"])
    = Normal (JArr [resolverEntry "n/a" "+05.98"; resolverEntry "10.5" "-3.25"])
  ∧ resolverEntry "10.5" "-3.25"
    ∈ [resolverEntry "n/a" "+05.98"; resolverEntry "10.5" "-3.25"]
  ∧ (exists a d ra dec,
        getProp (resolverEntry "10.5" "-3.25") (lit "jradeg") = Normal a
        ∧ getProp (resolverEntry "10.5" "-3.25") (lit "jdedeg") = Normal d
        ∧ parseFloat a = Normal ra ∧ parseFloat d = Normal dec
        ∧ isNaN ra = false ∧ isNaN dec = false)
  ∧ targetPosition
      (mockHost (okResponse (lit "<Sesame>...</Sesame>"))
                (Parsed (sesameReply [resolverEntry "n/a" "+05.98";
                                      resolverEntry "10.5" "-3.25"])))
      initialWorld (Some (lit "A")) None
    = ({| BASE_URL := BASE_URL initialWorld;
          fetchCalls := [BASE_URL initialWorld ++ lit "/-ox/SNV?A"] |},
       Fulfilled None).
Proof.
  split; [decide_by_computation|].
  split; [reflexivity|].
  split; [apply list_elem_of_In; right; left; reflexivity|].
  split; [|reflexivity].
  exists (JArr [JStr (lit "10.5")]), (JArr [JStr (lit "-3.25")]).
  do 2 eexists. repeat split; reflexivity.
Qed.

Lemma first_entry_position_witness :
  targetPosition
    (mockHost (okResponse (lit "<Sesame>...</Sesame>"))
              (Parsed (sesameReply [resolverEntry "12.5" "-0.75";
                                    resolverEntry "n/a" "n/a"])))
    initialWorld (Some (lit "A")) None
  = ({| BASE_URL := BASE_URL initialWorld;
        fetchCalls := [BASE_URL initialWorld ++ lit "/-ox/SNV?A"] |},
     Fulfilled (Some {| rightAscension := S754_finite false 7036874417766400 (-49);
                        declination := S754_finite true 6755399441055744 (-53);
                        equinox := numberOfZ 2000 |})).
Proof.
  apply (first_entry_position
           (mockHost (okResponse (lit "<Sesame>...</Sesame>"))
                     (Parsed (sesameReply [resolverEntry "12.5" "-0.75";
                                           resolverEntry "n/a" "n/a"])))
           initialWorld _ (Some (lit "A")) None
           (BASE_URL initialWorld ++ lit "/-ox/SNV?A")
           {| ok := true; text := Fulfilled (lit "<Sesame>...</Sesame>") |}
           (lit "<Sesame>...</Sesame>"))
    with (root := sesameReply [resolverEntry "12.5" "-0.75"; resolverEntry "n/a" "n/a"])
         (entry := resolverEntry "12.5" "-0.75")
         (others := [resolverEntry "n/a" "n/a"])
         (a := JArr [JStr (lit "12.5")]) (d := JArr [JStr (lit "-0.75")]);
    reflexivity.
Defined.

(** C3, as stated, fails: a success status and well-formed XML do not make
    the promise fulfill.  For a body such as an XHTML page, which holds no
    [Sesame] element and so no [Resolver] entry at all, the callback throws
    while reading [Target] from [undefined] and the promise is rejected,
    where the claim has it fulfilled with [null]. *)
Lemma foreign_document_counterexample :
  passesValidation (Some (lit "A")) None
  ∧ getProp (JObj [(lit "html", JObj [(lit "body", JArr [JStr (lit "Service unavailable")])])])
      (lit "Sesame")
    = Normal JUndefined
  ∧ targetPosition
      (mockHost (okResponse (lit "<html><body>Service unavailable</body></html>"))
                (Parsed (JObj [(lit "html",
                                JObj [(lit "body", JArr [JStr (lit "Service unavailable")])])])))
      initialWorld (Some (lit "A")) None
    = ({| BASE_URL := BASE_URL initialWorld;
          fetchCalls := [BASE_URL initialWorld ++ lit "/-ox/SNV?A"] |},
       Rejected (TypeError (lit "Cannot read property 'Target' of undefined"))).
Proof.
  split; [decide_by_computation|]. split; reflexivity.
Qed.

Lemma no_result_iff_witness :
  exists value,
    targetPosition (mockHost (okResponse (lit "<Sesame>...</Sesame>"))
                             (Parsed (sesameReply [resolverEntry "12.5" "n/a"])))
      initialWorld (Some (lit "A")) None
    = ({| BASE_URL := BASE_URL initialWorld;
          fetchCalls := [BASE_URL initialWorld ++ lit "/-ox/SNV?A"] |},
       Fulfilled value)
    ∧ (value = None
       <-> JArr [resolverEntry "12.5" "n/a"] = JUndefined
           ∨ JArr [resolverEntry "12.5" "n/a"] = JArr []
           ∨ exists entry others a d ra dec,
               JArr [resolverEntry "12.5" "n/a"] = JArr (entry :: others)
               ∧ getProp entry (lit "jradeg") = Normal a
               ∧ getProp entry (lit "jdedeg") = Normal d
               ∧ parseFloat a = Normal ra
               ∧ parseFloat d = Normal dec
               ∧ (isNaN ra = true ∨ isNaN dec = true)).
Proof.
  apply (no_result_iff
           (mockHost (okResponse (lit "<Sesame>...</Sesame>"))
                     (Parsed (sesameReply [resolverEntry "12.5" "n/a"])))
           initialWorld _ (Some (lit "A")) None
           (BASE_URL initialWorld ++ lit "/-ox/SNV?A")
           {| ok := true; text := Fulfilled (lit "<Sesame>...</Sesame>") |}
           (lit "<Sesame>...</Sesame>"))
    with (root := sesameReply [resolverEntry "12.5" "n/a"]);
    reflexivity.
Defined.

(** * Further properties of the module *)

(** ** Code units and percent-encoding *)

Lemma inRange_iff (lo hi c : N) : inRange lo hi c = true <-> lo <= c <= hi.
Proof. unfold inRange. rewrite andb_true_iff, !N.leb_le. tauto. Qed.

Lemma uriUnreserved_ascii (c : N) : uriUnreserved c = true -> c < 0x80.
Proof.
  unfold uriUnreserved. rewrite !orb_true_iff, !inRange_iff, bool_decide_eq_true.
  intros [[[H|H]|H]|H]; try lia.
  vm_compute lit in H.
  repeat (apply elem_of_cons in H as [->|H]); try (vm_compute; reflexivity).
  inversion H.
Qed.

Lemma uriUnreserved_not_surrogate (c : N) :
  uriUnreserved c = true -> isLowSurrogate c = false ∧ isHighSurrogate c = false.
Proof.
  intros H. apply uriUnreserved_ascii in H.
  unfold isLowSurrogate, isHighSurrogate.
  split; apply not_true_is_false; rewrite inRange_iff; lia.
Qed.

Lemma hexDigit_unreserved (n : N) : n < 16 -> uriUnreserved (hexDigit n) = true.
Proof.
  intros Hn. unfold uriUnreserved, hexDigit.
  rewrite !orb_true_iff, !inRange_iff.
  destruct (N.ltb_spec n 10); [left; right | left; left; left]; split; lia.
Qed.

Lemma div_below (a b q : N) : b ≠ 0 -> a < b * q -> a / b < q.
Proof. intros Hb H. by apply N.Div0.div_lt_upper_bound. Qed.

Lemma mod_below (a b : N) : b ≠ 0 -> a mod b < b.
Proof. intros Hb. by apply N.mod_upper_bound. Qed.

Lemma percentOctet_safe (b : N) : b < 256 -> Forall urlSafe (percentOctet b).
Proof.
  intros Hb. unfold percentOctet.
  apply Forall_cons_2; [by right|].
  apply Forall_cons_2; [left; apply hexDigit_unreserved, div_below; lia|].
  apply Forall_cons_2; [left; apply hexDigit_unreserved, mod_below; lia|].
  constructor.
Qed.

Lemma utf8_octets (v : N) : v < 0x200000 -> Forall (fun b => b < 256) (utf8 v).
Proof.
  intros Hv. unfold utf8.
  repeat match goal with |- context [if ?b then _ else _] =>
    destruct (N.ltb_spec0 v 0x80); [|destruct (N.ltb_spec0 v 0x800); [|destruct (N.ltb_spec0 v 0x10000)]]
  end;
    repeat (apply Forall_cons_2;
            [first [ lia
                   | pose proof (mod_below v 0x40);
                     pose proof (mod_below (v / 0x40) 0x40);
                     pose proof (mod_below (v / 0x1000) 0x40);
                     pose proof (div_below v 0x40 0x20);
                     pose proof (div_below v 0x1000 0x10);
                     pose proof (div_below v 0x40000 0x8);
                     lia ]|]);
    constructor.
Qed.

Lemma percentEncode_safe (v : N) : v < 0x200000 -> Forall urlSafe (percentEncode v).
Proof.
  intros Hv. unfold percentEncode. apply Forall_join.
  apply Forall_fmap. eapply Forall_impl; [by apply utf8_octets|].
  intros b Hb. by apply percentOctet_safe.
Qed.

(** [encodeURIComponent] completes on the well-formed strings and throws
    the URIError on the others. *)
Lemma encodeURIComponent_cases (s : jsstring) :
  if isWellFormed s then exists enc, encodeURIComponent s = Normal enc
  else encodeURIComponent s = Throw uriMalformed.
Proof.
  remember (length s) as n eqn:Hn.
  assert (length s <= n)%nat as Hle by lia. clear Hn.
  revert s Hle. induction n as [|n IH]; intros s Hle.
  { destruct s; [by eexists | simpl in Hle; lia]. }
  destruct s as [|c rest]; [by eexists|]. simpl in Hle.
  pose proof (IH rest ltac:(lia)) as IHrest.
  destruct (uriUnreserved c) eqn:Hu.
  - destruct (uriUnreserved_not_surrogate c Hu) as [Hl Hh].
    simpl. rewrite Hu, Hl, Hh.
    destruct (isWellFormed rest).
    + destruct IHrest as [enc ->]. by eexists.
    + by rewrite IHrest.
  - simpl. rewrite Hu.
    destruct (isLowSurrogate c) eqn:Hl; [reflexivity|].
    destruct (isHighSurrogate c) eqn:Hh; simpl.
    + destruct rest as [|k rest']; [reflexivity|].
      destruct (isLowSurrogate k) eqn:Hk; [|reflexivity]. simpl.
      simpl in Hle. pose proof (IH rest' ltac:(lia)) as IH'.
      destruct (isWellFormed rest').
      * destruct IH' as [enc ->]. by eexists.
      * by rewrite IH'.
    + destruct (isWellFormed rest).
      * destruct IHrest as [enc ->]. by eexists.
      * by rewrite IHrest.
Qed.

Lemma encodeURIComponent_Normal_iff (s : jsstring) :
  (exists enc, encodeURIComponent s = Normal enc) <-> isWellFormed s = true.
Proof.
  pose proof (encodeURIComponent_cases s) as H.
  destruct (isWellFormed s); split; try done.
  intros [enc He]. congruence.
Qed.

Lemma encodeURIComponent_Throw (s : jsstring) (e : JsError) :
  encodeURIComponent s = Throw e -> e = uriMalformed ∧ isWellFormed s = false.
Proof.
  pose proof (encodeURIComponent_cases s) as H.
  destruct (isWellFormed s); intros He.
  - destruct H as [enc H]. congruence.
  - split; congruence.
Qed.

(** The percent-encoding holds unreserved characters and percent signs
    only. *)
Lemma encodeURIComponent_safe (s enc : jsstring) :
  Forall (fun c => c < 0x10000) s ->
  encodeURIComponent s = Normal enc ->
  Forall urlSafe enc.
Proof.
  remember (length s) as n eqn:Hn.
  assert (length s <= n)%nat as Hle by lia. clear Hn.
  revert s enc Hle. induction n as [|n IH]; intros s enc Hle Hs He.
  { destruct s; [|simpl in Hle; lia]. inversion He. constructor. }
  destruct s as [|c rest]; [inversion He; constructor|]. simpl in Hle.
  apply Forall_cons in Hs as [Hc Hrest].
  simpl in He.
  destruct (uriUnreserved c) eqn:Hu.
  - destruct (encodeURIComponent rest) as [r|] eqn:Er; [|discriminate].
    inversion He; subst enc. apply Forall_cons_2; [by left|].
    apply (IH rest); [lia | done | done].
  - destruct (isLowSurrogate c) eqn:Hl; [discriminate|].
    destruct (isHighSurrogate c) eqn:Hh; simpl in He.
    + destruct rest as [|k rest']; [discriminate|].
      destruct (isLowSurrogate k) eqn:Hk; [|discriminate].
      destruct (encodeURIComponent rest') as [r|] eqn:Er; [|discriminate].
      inversion He; subst enc.
      apply Forall_cons in Hrest as [Hkb Hrest']. simpl in Hle.
      apply Forall_app. split.
      * apply percentEncode_safe.
        unfold isHighSurrogate in Hh. unfold isLowSurrogate in Hk.
        apply inRange_iff in Hh. apply inRange_iff in Hk. lia.
      * apply (IH rest'); [lia | done | done].
    + destruct (encodeURIComponent rest) as [r|] eqn:Er; [|discriminate].
      inversion He; subst enc. apply Forall_app. split.
      * apply percentEncode_safe. lia.
      * apply (IH rest); [lia | done | done].
Qed.

(** A text of unreserved characters is its own percent-encoding. *)
Lemma encodeURIComponent_unreserved (s : jsstring) :
  forallb uriUnreserved s = true -> encodeURIComponent s = Normal s.
Proof.
  induction s as [|c rest IH]; [reflexivity|]. simpl.
  intros H. apply andb_true_iff in H as [Hc Hrest].
  rewrite Hc, (IH Hrest). reflexivity.
Qed.

(** ** The resolver code *)

Lemma codeLetter_supported (r : jsstring) :
  r ∈ SUPPORTED_RESOLVERS -> codeLetter r = [codeUnit r] ∧ codeUnit r ∈ lit "SNV".
Proof.
  unfold SUPPORTED_RESOLVERS. intros H.
  repeat (apply elem_of_cons in H as [->|H]); [| | |by inversion H];
    (split; [reflexivity|]); vm_compute lit; set_solver.
Qed.

Lemma codeUnit_inj (r1 r2 : jsstring) :
  r1 ∈ SUPPORTED_RESOLVERS -> r2 ∈ SUPPORTED_RESOLVERS ->
  codeUnit r1 = codeUnit r2 -> r1 = r2.
Proof.
  unfold SUPPORTED_RESOLVERS. intros H1 H2.
  repeat (apply elem_of_cons in H1 as [->|H1]); [| | |by inversion H1];
    repeat (apply elem_of_cons in H2 as [->|H2]); try (by inversion H2);
    vm_compute; congruence.
Qed.

(** On supported names the code is one letter for each name, in order. *)
Lemma resolverCode_units (lower : list jsstring) :
  Forall (fun r => r ∈ SUPPORTED_RESOLVERS) lower ->
  resolverCode lower = codeUnit <$> lower.
Proof.
  intros H. unfold resolverCode. rewrite join_empty_separator.
  induction H as [|r l Hr Hl IH]; [reflexivity|].
  rewrite !fmap_cons. simpl mjoin.
  destruct (codeLetter_supported r Hr) as [-> _]. by rewrite IH.
Qed.

Lemma lowerCase_supported (rs : list jsstring) :
  Forall (fun r => toLowerCase r ∈ SUPPORTED_RESOLVERS) rs
  <-> Forall (fun r => r ∈ SUPPORTED_RESOLVERS) (lowerCaseResolvers rs).
Proof. unfold lowerCaseResolvers. by rewrite Forall_fmap. Qed.

(** X1.  The resolver code of a call that passes the checks has one letter
    for each entry of the selection, hence between one and three letters;
    each letter is [S], [N] or [V], and no letter occurs twice. *)
Theorem resolver_code_shape (targetName : option jsstring)
    (resolvers : option (list jsstring)) :
  passesValidation targetName resolvers ->
  let selection := default defaultResolvers resolvers in
  let code := resolverCode (lowerCaseResolvers selection) in
  length code = length selection
  ∧ (1 <= length code <= 3)%nat
  ∧ Forall (fun c => c ∈ lit "SNV") code
  ∧ NoDup code.
Proof.
  intros (_ & Hsup & Hne & Hnd). cbv zeta.
  apply lowerCase_supported in Hsup.
  rewrite (resolverCode_units _ Hsup).
  assert (length (lowerCaseResolvers (default defaultResolvers resolvers)) <= 3)%nat as Hlen.
  { change 3%nat with (length SUPPORTED_RESOLVERS).
    apply submseteq_length, NoDup_submseteq; [exact Hnd|].
    intros r Hr. by eapply (proj1 (Forall_forall _ _) Hsup). }
  rewrite length_fmap. unfold lowerCaseResolvers in *. rewrite length_fmap in *.
  split; [reflexivity|]. split.
  - split; [|exact Hlen].
    destruct (default defaultResolvers resolvers); [done | simpl; lia].
  - split.
    + apply Forall_fmap. eapply Forall_impl; [exact Hsup|].
      intros r Hr. by apply codeLetter_supported.
    + apply NoDup_fmap_2_strong; [|exact Hnd].
      intros r1 r2 H1 H2. apply codeUnit_inj;
        by eapply (proj1 (Forall_forall _ _) Hsup).
Qed.

Lemma resolver_code_shape_witness :
  length (lit "VS") = length [lit "VizieR"; lit "Simbad"]
  ∧ (1 <= length (lit "VS") <= 3)%nat
  ∧ Forall (fun c => c ∈ lit "SNV") (lit "VS")
  ∧ NoDup (lit "VS").
Proof.
  apply (resolver_code_shape (Some (lit "A")) (Some [lit "VizieR"; lit "Simbad"])).
  decide_by_computation.
Defined.

(** X2.  On selections of supported names, the resolver code is the same
    for two selections exactly when they agree entry by entry after
    lower-casing: the code keeps the names and their order, and loses only
    the case of the letters. *)
Theorem resolver_code_injective (rs1 rs2 : list jsstring) :
  Forall (fun r => toLowerCase r ∈ SUPPORTED_RESOLVERS) rs1 ->
  Forall (fun r => toLowerCase r ∈ SUPPORTED_RESOLVERS) rs2 ->
  resolverCode (lowerCaseResolvers rs1) = resolverCode (lowerCaseResolvers rs2)
  <-> toLowerCase <$> rs1 = toLowerCase <$> rs2.
Proof.
  intros H1 H2. split; [|unfold lowerCaseResolvers; by intros ->].
  apply lowerCase_supported in H1, H2.
  rewrite (resolverCode_units _ H1), (resolverCode_units _ H2).
  unfold lowerCaseResolvers in *.
  revert H1 H2. generalize (toLowerCase <$> rs1) (toLowerCase <$> rs2).
  induction l as [|a l IH]; intros [|b k] Ha Hb Heq; try done.
  apply Forall_cons in Ha as [Ha Hl]. apply Forall_cons in Hb as [Hb Hk].
  rewrite !fmap_cons in Heq. inversion Heq as [[Hab Hrest]].
  f_equal; [by apply codeUnit_inj | by apply IH].
Qed.

Lemma resolver_code_injective_witness :
  resolverCode (lowerCaseResolvers [lit "NED"; lit "simbad"])
  = resolverCode (lowerCaseResolvers [lit "ned"; lit "Simbad"])
  <-> toLowerCase <$> [lit "NED"; lit "simbad"] = toLowerCase <$> [lit "ned"; lit "Simbad"].
Proof.
  apply (resolver_code_injective [lit "NED"; lit "simbad"] [lit "ned"; lit "Simbad"]);
    decide_by_computation.
Defined.

(** ** The synchronous part as a whole *)

Lemma passesValidation_name (targetName : option jsstring) resolvers :
  passesValidation targetName resolvers ->
  exists s, targetName = Some s ∧ trim s ≠ [].
Proof.
  intros (Hname & _). destruct targetName as [s|]; [|done].
  exists s. by rewrite trimmedTargetName_Some in Hname.
Qed.

(** X3.  With a target name that is not blank, the empty selection [[]] is
    rejected in the synchronous part with the error "At least one resolver
    must be given.": [fetch] is not called and the module state is left as it
    was. *)
Theorem empty_selection_rejected (h : Host) (w : World)
    (targetName : option jsstring) :
  trimmedTargetName targetName ≠ [] ->
  start w targetName (Some [])
  = (w, Throw (Error (lit "At least one resolver must be given.")))
  ∧ targetPosition h w targetName (Some [])
    = (w, Rejected (Error (lit "At least one resolver must be given."))).
Proof.
  intros Hname.
  assert (start w targetName (Some [])
          = (w, Throw (Error (lit "At least one resolver must be given.")))) as Hs.
  { apply start_Throw. simpl default. unfold requestUrl.
    destruct (truthy (trimmedTargetName targetName)) eqn:Ht;
      [reflexivity | by apply truthy_false_iff in Ht]. }
  split; [done|]. by apply targetPosition_Throw.
Qed.

Lemma empty_selection_rejected_witness :
  start initialWorld (Some (lit "A")) (Some [])
  = (initialWorld, Throw (Error (lit "At least one resolver must be given.")))
  ∧ targetPosition silentHost initialWorld (Some (lit "A")) (Some [])
    = (initialWorld, Rejected (Error (lit "At least one resolver must be given."))).
Proof.
  apply (empty_selection_rejected silentHost initialWorld (Some (lit "A"))).
  vm_compute. discriminate.
Defined.

(** X4.  A call reaches [fetch] exactly when it passes the four checks and
    its target name is a well-formed string, one without an unpaired
    surrogate code unit. *)
Theorem request_issued_iff (w : World) (targetName : option jsstring)
    (resolvers : option (list jsstring)) :
  (exists w' url, start w targetName resolvers = (w', Normal url))
  <-> passesValidation targetName resolvers
      ∧ exists s, targetName = Some s ∧ isWellFormed s = true.
Proof.
  split.
  - intros (w' & url & Hs).
    pose proof (start_Normal_passes _ _ _ _ _ Hs) as Hv. split; [done|].
    destruct (passesValidation_name _ _ Hv) as (s & -> & _).
    exists s. split; [done|].
    apply start_Normal_inv in Hs as [Hu _].
    destruct Hv as (H1 & H2 & H3 & H4).
    rewrite requestUrl_passes in Hu by done. simpl in Hu.
    apply encodeURIComponent_Normal_iff.
    destruct (encodeURIComponent s) as [enc|]; [by eexists | discriminate].
  - intros [(H1 & H2 & H3 & H4) (s & -> & Hwf)].
    apply encodeURIComponent_Normal_iff in Hwf as [enc Henc].
    do 2 eexists. apply start_Normal.
    rewrite requestUrl_passes by done. simpl. rewrite Henc. reflexivity.
Qed.

(** X5.  The synchronous rejections, all of them.  A call that is rejected
    before [fetch] leaves the module state as it was, and its error is, in
    the order of the checks: the missing target name; the message naming the
    unsupported entries; the empty selection; a resolver used twice; or, the
    checks being passed, the URIError of [encodeURIComponent] on a target
    name that is not well formed. *)
Theorem synchronous_rejection_cases (w w' : World)
    (targetName : option jsstring) (resolvers : option (list jsstring))
    (e : JsError) :
  start w targetName resolvers = (w', Throw e) ->
  let selection := default defaultResolvers resolvers in
  w' = w
  ∧ ((trimmedTargetName targetName = []
      ∧ e = Error (lit "The target name is missing."))
     ∨ (trimmedTargetName targetName ≠ []
        ∧ unsupportedResolvers selection ≠ []
        ∧ e = Error (unsupportedMessage (unsupportedResolvers selection)))
     ∨ (trimmedTargetName targetName ≠ []
        ∧ selection = []
        ∧ e = Error (lit "At least one resolver must be given."))
     ∨ (trimmedTargetName targetName ≠ []
        ∧ Forall (fun r => toLowerCase r ∈ SUPPORTED_RESOLVERS) selection
        ∧ ¬ NoDup (toLowerCase <$> selection)
        ∧ e = Error (lit "A resolver may be used only once in the array of resolvers."))
     ∨ (passesValidation targetName resolvers
        ∧ (exists s, targetName = Some s ∧ isWellFormed s = false)
        ∧ e = uriMalformed)).
Proof.
  intros Hs. cbv zeta. unfold start in Hs.
  destruct (requestUrl _ _ _) as [url|e'] eqn:Hu; inversion Hs; subst w' e'.
  split; [reflexivity|]. clear Hs.
  unfold requestUrl in Hu.
  destruct (truthy (trimmedTargetName targetName)) eqn:Ht; simpl in Hu.
  2:{ left. apply truthy_false_iff in Ht. split; congruence. }
  assert (trimmedTargetName targetName ≠ []) as Hname
    by (intros E; by rewrite E in Ht).
  right. case_bool_decide as Hun.
  { left. split; [done|]. split; [|congruence].
    intros E. rewrite E in Hun. simpl in Hun. lia. }
  assert (Forall (fun r => toLowerCase r ∈ SUPPORTED_RESOLVERS)
                 (default defaultResolvers resolvers)) as Hsup.
  { apply unsupportedResolvers_nil.
    destruct (unsupportedResolvers _); [done | simpl in Hun; lia]. }
  right. case_bool_decide as Hem.
  { left. split; [done|]. split; [|congruence].
    unfold lowerCaseResolvers in Hem. rewrite length_fmap in Hem.
    by destruct (default defaultResolvers resolvers). }
  right. case_bool_decide as Hdup.
  { left. split; [done|]. split; [done|]. split; [|congruence].
    intros Hnd. apply Hdup. by apply set_size_NoDup. }
  right.
  assert (passesValidation targetName resolvers) as Hv.
  { repeat split; try done.
    - intros E. apply Hem. by rewrite E.
    - by apply set_size_NoDup. }
  split; [done|].
  destruct (passesValidation_name _ _ Hv) as (s & -> & _). simpl in Hu.
  destruct (encodeURIComponent s) as [enc|e'] eqn:He; [discriminate|].
  inversion Hu; subst e'.
  apply encodeURIComponent_Throw in He as [-> Hwf].
  split; [by exists s | reflexivity].
Qed.

Lemma synchronous_rejection_cases_witness :
  initialWorld = initialWorld
  ∧ ((trimmedTargetName (Some (lit "A")) = []
      ∧ Error (lit "At least one resolver must be given.")
        = Error (lit "The target name is missing."))
     ∨ (trimmedTargetName (Some (lit "A")) ≠ []
        ∧ unsupportedResolvers [] ≠ []
        ∧ Error (lit "At least one resolver must be given.")
          = Error (unsupportedMessage (unsupportedResolvers [])))
     ∨ (trimmedTargetName (Some (lit "A")) ≠ []
        ∧ @nil jsstring = []
        ∧ Error (lit "At least one resolver must be given.")
          = Error (lit "At least one resolver must be given."))
     ∨ (trimmedTargetName (Some (lit "A")) ≠ []
        ∧ Forall (fun r => toLowerCase r ∈ SUPPORTED_RESOLVERS) []
        ∧ ¬ NoDup (toLowerCase <$> [])
        ∧ Error (lit "At least one resolver must be given.")
          = Error (lit "A resolver may be used only once in the array of resolvers."))
     ∨ (passesValidation (Some (lit "A")) (Some [])
        ∧ (exists s, Some (lit "A") = Some s ∧ isWellFormed s = false)
        ∧ Error (lit "At least one resolver must be given.") = uriMalformed)).
Proof.
  apply (synchronous_rejection_cases initialWorld initialWorld
           (Some (lit "A")) (Some [])).
  reflexivity.
Defined.

(** X6.  The case of the letters in resolver names is of no consequence
    for the request: two selections that agree after lower-casing lead to
    the same URL and the same record of requests. *)
Theorem resolver_names_case_insensitive (w w' : World)
    (targetName : option jsstring) (rs1 rs2 : list jsstring) (url : jsstring) :
  toLowerCase <$> rs1 = toLowerCase <$> rs2 ->
  start w targetName (Some rs1) = (w', Normal url) ->
  start w targetName (Some rs2) = (w', Normal url).
Proof.
  intros Hlow Hs.
  apply start_Normal_inv in Hs as [Hu ->]. simpl default in Hu.
  pose proof (requestUrl_Normal_inv _ _ _ _ Hu) as (H1 & H2 & H3 & H4).
  rewrite requestUrl_passes in Hu by done.
  apply start_Normal. simpl default.
  rewrite requestUrl_passes.
  - unfold lowerCaseResolvers in *. by rewrite <- Hlow.
  - done.
  - apply lowerCase_supported. apply lowerCase_supported in H2.
    unfold lowerCaseResolvers in *. by rewrite <- Hlow.
  - intros ->. destruct rs1; [done | discriminate].
  - by rewrite <- Hlow.
Qed.

Lemma resolver_names_case_insensitive_witness :
  start initialWorld (Some (lit "A")) (Some [lit "VIZIER"; lit "ned"])
  = ({| BASE_URL := BASE_URL initialWorld;
        fetchCalls := [BASE_URL initialWorld ++ lit "/-ox/VN?A"] |},
     Normal (BASE_URL initialWorld ++ lit "/-ox/VN?A")).
Proof.
  apply (resolver_names_case_insensitive initialWorld _ (Some (lit "A"))
           [lit "VizieR"; lit "NED"] [lit "VIZIER"; lit "ned"]);
    reflexivity.
Defined.

(** X7.  The URL of a request, for a target name made of 16-bit code
    units, is the endpoint, [/-ox/], a code of letters among [S], [N], [V],
    a question mark, and a text in which every character is either an
    unreserved character of [encodeURIComponent] (a letter, a digit, or one
    of [-_.!~*'()]) or the percent sign: whatever the target name holds, no
    space, slash, question mark, ampersand or non-ASCII character of it
    reaches the URL unescaped. *)
Theorem request_url_alphabet (w w' : World) (s : jsstring)
    (resolvers : option (list jsstring)) (url : jsstring) :
  Forall (fun c => c < 0x10000) s ->
  start w (Some s) resolvers = (w', Normal url) ->
  exists code enc,
    url = BASE_URL w ++ lit "/-ox/" ++ code ++ lit "?" ++ enc
    ∧ Forall (fun c => c ∈ lit "SNV") code
    ∧ Forall urlSafe enc.
Proof.
  intros Hunits Hs.
  apply start_Normal_inv in Hs as [Hu _].
  pose proof (requestUrl_Normal_inv _ _ _ _ Hu) as (H1 & H2 & H3 & H4).
  rewrite requestUrl_passes in Hu by done. simpl in Hu.
  destruct (encodeURIComponent s) as [enc|] eqn:He; [|discriminate].
  inversion Hu; subst url.
  exists (resolverCode (lowerCaseResolvers (default defaultResolvers resolvers))), enc.
  split; [reflexivity|]. split.
  - apply lowerCase_supported in H2. rewrite (resolverCode_units _ H2).
    apply Forall_fmap. eapply Forall_impl; [exact H2|].
    intros r Hr. by apply codeLetter_supported.
  - by eapply encodeURIComponent_safe.
Qed.

Lemma request_url_alphabet_witness :
  exists code enc,
    BASE_URL initialWorld ++ lit "/-ox/SNV?a%2Fb%3Fc%20%C3%A9"
    = BASE_URL initialWorld ++ lit "/-ox/" ++ code ++ lit "?" ++ enc
    ∧ Forall (fun c => c ∈ lit "SNV") code
    ∧ Forall urlSafe enc.
Proof.
  apply (request_url_alphabet initialWorld
           {| BASE_URL := BASE_URL initialWorld;
              fetchCalls := [BASE_URL initialWorld ++ lit "/-ox/SNV?a%2Fb%3Fc%20%C3%A9"] |}
           (lit "a/b?c " ++ [0xE9]) None).
  - decide_by_computation.
  - reflexivity.
Defined.

(** X8.  A target name made only of unreserved characters is put into the
    URL as it is, when the call passes the checks. *)
Theorem unreserved_name_verbatim (w : World) (s : jsstring)
    (resolvers : option (list jsstring)) :
  forallb uriUnreserved s = true ->
  passesValidation (Some s) resolvers ->
  snd (start w (Some s) resolvers)
  = Normal (BASE_URL w ++ lit "/-ox/"
            ++ resolverCode (lowerCaseResolvers (default defaultResolvers resolvers))
            ++ lit "?" ++ s).
Proof.
  intros Hun (H1 & H2 & H3 & H4).
  unfold start. rewrite requestUrl_passes by done. simpl.
  by rewrite (encodeURIComponent_unreserved s Hun).
Qed.

Lemma unreserved_name_verbatim_witness :
  snd (start initialWorld (Some (lit "HIP123")) (Some [lit "Simbad"]))
  = Normal (BASE_URL initialWorld ++ lit "/-ox/"
            ++ resolverCode (lowerCaseResolvers (default defaultResolvers (Some [lit "Simbad"])))
            ++ lit "?" ++ lit "HIP123").
Proof.
  apply (unreserved_name_verbatim initialWorld (lit "HIP123") (Some [lit "Simbad"])).
  - reflexivity.
  - decide_by_computation.
Defined.

(** ** How the promise settles *)

(** The promise of a call is fulfilled only along one path: the request
    was issued, the response came with a success status, its body was read
    and parsed, and the callback completed. *)
Lemma targetPosition_Fulfilled_inv (h : Host) (w : World)
    (targetName : option jsstring) (resolvers : option (list jsstring))
    (value : option IPosition) :
  snd (targetPosition h w targetName resolvers) = Fulfilled value ->
  exists w' url res body root,
    start w targetName resolvers = (w', Normal url)
    ∧ fetch h url = Fulfilled res
    ∧ ok res = true
    ∧ text res = Fulfilled body
    ∧ xml2js h body = Parsed root
    ∧ extractTarget None root = Normal value.
Proof.
  unfold targetPosition.
  destruct (start w targetName resolvers) as [w' [url|e]] eqn:Hs; simpl;
    [|discriminate].
  unfold settlement.
  destruct (fetch h url) as [res| |] eqn:Hf; simpl; try discriminate.
  unfold parseText.
  destruct (text res) as [body| |] eqn:Ht; simpl; try discriminate.
  unfold handleResponse. simpl.
  destruct (ok res) eqn:Hok; simpl; [|discriminate].
  unfold parseString.
  destruct (xml2js h body) as [err|root] eqn:Hx.
  - simpl. discriminate.
  - destruct (extractTarget None root) as [v|e] eqn:He; simpl; [|discriminate].
    intros [= <-]. by exists w', url, res, body, root.
Qed.

(** A position handed to [resolve] has two coordinates that are numbers
    and the equinox 2000. *)
Lemma extractTarget_Some_inv (err : option JsError) (root : jsval) (p : IPosition) :
  extractTarget err root = Normal (Some p) ->
  equinox p = numberOfZ 2000
  ∧ isNaN (rightAscension p) = false
  ∧ isNaN (declination p) = false.
Proof.
  unfold extractTarget.
  destruct (resolverOf root) as [resolver|]; simpl; [|discriminate].
  destruct (falsy resolver || lengthIsZero resolver); [discriminate|].
  destruct (firstEntryNumber resolver (lit "jradeg")) as [ra|]; simpl; [|discriminate].
  destruct (firstEntryNumber resolver (lit "jdedeg")) as [dec|]; simpl; [|discriminate].
  destruct (isNaN ra) eqn:Hra; simpl; [discriminate|].
  destruct (isNaN dec) eqn:Hdec; simpl; [discriminate|].
  intros [= <-]. by simpl.
Qed.

(** X9.  The promise is fulfilled, with a position or with [null], only
    along one path: the call passed the checks, [fetch] answered with a
    response of success status, the body was read, and the parser took it
    for a document. *)
Theorem fulfilled_only_on_success (h : Host) (w : World)
    (targetName : option jsstring) (resolvers : option (list jsstring))
    (value : option IPosition) :
  snd (targetPosition h w targetName resolvers) = Fulfilled value ->
  passesValidation targetName resolvers
  ∧ exists w' url res body root,
      start w targetName resolvers = (w', Normal url)
      ∧ fetch h url = Fulfilled res
      ∧ ok res = true
      ∧ text res = Fulfilled body
      ∧ xml2js h body = Parsed root.
Proof.
  intros H.
  apply targetPosition_Fulfilled_inv in H
    as (w' & url & res & body & root & Hs & Hf & Hok & Ht & Hx & _).
  split; [by eapply start_Normal_passes|].
  by exists w', url, res, body, root.
Qed.

Lemma fulfilled_only_on_success_witness :
  passesValidation (Some (lit "A")) None
  ∧ exists w' url res body root,
      start initialWorld (Some (lit "A")) None = (w', Normal url)
      ∧ fetch (mockHost (okResponse (lit "<Sesame>...</Sesame>")) (Parsed nothingFoundReply)) url
        = Fulfilled res
      ∧ ok res = true
      ∧ text res = Fulfilled body
      ∧ xml2js (mockHost (okResponse (lit "<Sesame>...</Sesame>")) (Parsed nothingFoundReply)) body
        = Parsed root.
Proof.
  apply (fulfilled_only_on_success
           (mockHost (okResponse (lit "<Sesame>...</Sesame>")) (Parsed nothingFoundReply))
           initialWorld (Some (lit "A")) None None).
  reflexivity.
Defined.

(** X10.  A position the promise is fulfilled with has the equinox 2000
    and a right ascension and a declination that are numbers, never NaN. *)
Theorem position_invariant (h : Host) (w : World)
    (targetName : option jsstring) (resolvers : option (list jsstring))
    (p : IPosition) :
  snd (targetPosition h w targetName resolvers) = Fulfilled (Some p) ->
  equinox p = numberOfZ 2000
  ∧ isNaN (rightAscension p) = false
  ∧ isNaN (declination p) = false.
Proof.
  intros H.
  apply targetPosition_Fulfilled_inv in H
    as (w' & url & res & body & root & _ & _ & _ & _ & _ & He).
  by eapply extractTarget_Some_inv.
Qed.

Lemma position_invariant_witness :
  equinox {| rightAscension := S754_finite false 7036874417766400 (-49);
             declination := S754_finite true 6755399441055744 (-53);
             equinox := numberOfZ 2000 |} = numberOfZ 2000
  ∧ isNaN (S754_finite false 7036874417766400 (-49)) = false
  ∧ isNaN (S754_finite true 6755399441055744 (-53)) = false.
Proof.
  apply (position_invariant
           (mockHost (okResponse (lit "<Sesame>...</Sesame>"))
                     (Parsed (sesameReply [resolverEntry "12.5" "-0.75"])))
           initialWorld (Some (lit "A")) None
           {| rightAscension := S754_finite false 7036874417766400 (-49);
              declination := S754_finite true 6755399441055744 (-53);
              equinox := numberOfZ 2000 |}).
  reflexivity.
Defined.

Section Issued.

Context (h : Host) (w w' : World).
Context (targetName : option jsstring) (resolvers : option (list jsstring)).
Context (url : jsstring).

Hypothesis issued : start w targetName resolvers = (w', Normal url).

(** X11.  When [fetch] rejects, or the body of the response cannot be
    read, the promise of the call is rejected with that very reason, neither
    wrapped nor replaced. *)
Theorem transport_failure_passed_through (reason : JsError) :
  fetch h url = Rejected reason
  ∨ (exists res, fetch h url = Fulfilled res ∧ text res = Rejected reason) ->
  targetPosition h w targetName resolvers = (w', Rejected reason).
Proof.
  intros H. unfold targetPosition. rewrite issued. f_equal.
  unfold settlement.
  destruct H as [-> | (res & -> & Ht)]; [reflexivity|].
  simpl. unfold parseText. by rewrite Ht.
Qed.

(** X12.  A reply of success status whose parsed document has no target
    block to read - the document itself is [null] (as for a blank body) or
    [undefined], or its [Sesame] property, the [Target] property of that, or
    the first element of [Target] is - makes the promise reject with a
    TypeError; it is not fulfilled with [null]. *)
Theorem reply_without_target_block_rejected (res : Response) (body : jsstring)
    (root : jsval) :
  fetch h url = Fulfilled res ->
  ok res = true ->
  text res = Fulfilled body ->
  xml2js h body = Parsed root ->
  (isNullish root = true
   ∨ (exists sesame, getProp root (lit "Sesame") = Normal sesame
        ∧ (isNullish sesame = true
           ∨ exists target, getProp sesame (lit "Target") = Normal target
               ∧ (isNullish target = true
                  ∨ exists target0, getIndex0 target = Normal target0
                      ∧ isNullish target0 = true)))) ->
  exists msg, targetPosition h w targetName resolvers = (w', Rejected (TypeError msg)).
Proof.
  intros Hf Hok Ht Hx Hmissing.
  unfold targetPosition. rewrite issued.
  unfold settlement. rewrite Hf. simpl. unfold parseText. rewrite Ht. simpl.
  unfold handleResponse. simpl. rewrite Hok. simpl.
  unfold parseString. rewrite Hx. unfold extractTarget, resolverOf.
  destruct Hmissing as [Hr|(sesame & -> & [Hs|(target & Htg & [Htn|(target0 & Ht0 & Hn)])])].
  - destruct root; try discriminate; by eexists.
  - destruct sesame; try discriminate; by eexists.
  - simpl. rewrite Htg. destruct target; try discriminate; by eexists.
  - simpl. rewrite Htg. simpl. rewrite Ht0.
    destruct target0; try discriminate; by eexists.
Qed.

End Issued.

Lemma transport_failure_passed_through_witness :
  targetPosition
    (mockHost (Rejected (Error (lit "There was a problem with accessing the web service.")))
              (Parsed JNull))
    initialWorld (Some (lit "A")) (Some [lit "Simbad"])
  = ({| BASE_URL := BASE_URL initialWorld;
        fetchCalls := [BASE_URL initialWorld ++ lit "/-ox/S?A"] |},
     Rejected (Error (lit "There was a problem with accessing the web service."))).
Proof.
  apply (transport_failure_passed_through
           (mockHost (Rejected (Error (lit "There was a problem with accessing the web service.")))
                     (Parsed JNull))
           initialWorld _ (Some (lit "A")) (Some [lit "Simbad"])
           (BASE_URL initialWorld ++ lit "/-ox/S?A")).
  - reflexivity.
  - left. reflexivity.
Defined.

Lemma reply_without_target_block_rejected_witness :
  exists msg,
    targetPosition (mockHost (okResponse (lit "")) (Parsed JNull))
      initialWorld (Some (lit "A")) None
    = ({| BASE_URL := BASE_URL initialWorld;
          fetchCalls := [BASE_URL initialWorld ++ lit "/-ox/SNV?A"] |},
       Rejected (TypeError msg)).
Proof.
  apply (reply_without_target_block_rejected
           (mockHost (okResponse (lit "")) (Parsed JNull))
           initialWorld _ (Some (lit "A")) None
           (BASE_URL initialWorld ++ lit "/-ox/SNV?A"))
    with (res := {| ok := true; text := Fulfilled (lit "") |})
         (body := lit "") (root := JNull);
    try reflexivity.
  left. reflexivity.
Defined.

(** ** The URL determines the call *)

Ltac div_lia := zify; Z.to_euclidean_division_equations; lia.

Lemma hexDigit_inj (a b : N) : a < 16 -> b < 16 -> hexDigit a = hexDigit b -> a = b.
Proof.
  unfold hexDigit. intros Ha Hb.
  destruct (N.ltb_spec a 10), (N.ltb_spec b 10); lia.
Qed.

Lemma percentOctet_inj (b1 b2 : N) (x y : jsstring) :
  b1 < 256 -> b2 < 256 ->
  percentOctet b1 ++ x = percentOctet b2 ++ y -> b1 = b2 ∧ x = y.
Proof.
  intros H1 H2 H. unfold percentOctet in H. simpl in H.
  inversion H as [[Hhi Hlo Hxy]].
  apply hexDigit_inj in Hhi; [|div_lia|div_lia].
  apply hexDigit_inj in Hlo; [|div_lia|div_lia].
  split; [div_lia | done].
Qed.

(** The code points in the four length classes of UTF-8, with the octets of
    each. *)
Lemma utf8_class (v : N) :
  v < 0x110000 ->
  (v < 0x80 ∧ utf8 v = [v])
  ∨ (0x80 <= v < 0x800 ∧ utf8 v = [0xC0 + v / 0x40; 0x80 + v mod 0x40])
  ∨ (0x800 <= v < 0x10000
     ∧ utf8 v = [0xE0 + v / 0x1000; 0x80 + (v / 0x40) mod 0x40; 0x80 + v mod 0x40])
  ∨ (0x10000 <= v
     ∧ utf8 v = [0xF0 + v / 0x40000; 0x80 + (v / 0x1000) mod 0x40;
                 0x80 + (v / 0x40) mod 0x40; 0x80 + v mod 0x40]).
Proof.
  intros Hv. unfold utf8.
  destruct (N.ltb_spec v 0x80); [left; by split|].
  destruct (N.ltb_spec v 0x800); [right; left; by split|].
  destruct (N.ltb_spec v 0x10000); [right; right; left; by split|].
  right; right; right; by split.
Qed.

Ltac peel_octet H :=
  apply percentOctet_inj in H as [?Hb H]; [| div_lia | div_lia].

(** The percent-encoding of a code point can be read back from the front
    of a text. *)
Lemma percentEncode_inj (v1 v2 : N) (x y : jsstring) :
  v1 < 0x110000 -> v2 < 0x110000 ->
  percentEncode v1 ++ x = percentEncode v2 ++ y -> v1 = v2 ∧ x = y.
Proof.
  intros H1 H2 H. unfold percentEncode in H.
  destruct (utf8_class v1 H1) as [[B1 E1]|[[B1 E1]|[[B1 E1]|[B1 E1]]]];
    destruct (utf8_class v2 H2) as [[B2 E2]|[[B2 E2]|[[B2 E2]|[B2 E2]]]];
    rewrite E1, E2 in H; simpl in H; rewrite <- ?app_assoc in H;
    rewrite ?app_nil_r in H;
    peel_octet H; try (exfalso; div_lia);
    repeat (peel_octet H); (split; [div_lia | done]).
Qed.

Lemma percentEncode_head (v : N) :
  exists t, percentEncode v = 0x25 :: t.
Proof.
  unfold percentEncode, utf8.
  destruct (v <? 0x80); [by eexists|].
  destruct (v <? 0x800); [by eexists|].
  destruct (v <? 0x10000); by eexists.
Qed.

Lemma percent_reserved : uriUnreserved 0x25 = false.
Proof. reflexivity. Qed.

(** The three ways [encodeURIComponent] consumes the front of a string: an
    unreserved character, another code unit, or a surrogate pair. *)
Lemma encodeURIComponent_step (s enc : jsstring) :
  Forall (fun c => c < 0x10000) s ->
  encodeURIComponent s = Normal enc ->
  (s = [] ∧ enc = [])
  ∨ (exists c rest r, s = c :: rest ∧ uriUnreserved c = true
       ∧ encodeURIComponent rest = Normal r ∧ enc = c :: r)
  ∨ (exists v rest r,
       v < 0x110000
       ∧ (s = v :: rest ∧ v < 0x10000
          ∨ exists c k, s = c :: k :: rest
              ∧ 0xD800 <= c <= 0xDBFF ∧ 0xDC00 <= k <= 0xDFFF
              ∧ v = (c - 0xD800) * 0x400 + (k - 0xDC00) + 0x10000)
       ∧ encodeURIComponent rest = Normal r ∧ enc = percentEncode v ++ r).
Proof.
  intros Hs He. destruct s as [|c rest]; [left; split; [done|by inversion He]|].
  right. apply Forall_cons in Hs as [Hc Hrest]. simpl in He.
  destruct (uriUnreserved c) eqn:Hu.
  - left. destruct (encodeURIComponent rest) as [r|] eqn:Er; simpl in He; [|discriminate].
    inversion He. by exists c, rest, r.
  - right. destruct (isLowSurrogate c) eqn:Hl; [discriminate|].
    destruct (isHighSurrogate c) eqn:Hh; simpl in He.
    + destruct rest as [|k rest']; [discriminate|].
      destruct (isLowSurrogate k) eqn:Hk; [|discriminate].
      destruct (encodeURIComponent rest') as [r|] eqn:Er; simpl in He; [|discriminate].
      inversion He.
      apply inRange_iff in Hh. apply inRange_iff in Hk.
      exists ((c - 0xD800) * 0x400 + (k - 0xDC00) + 0x10000), rest', r.
      split; [lia|]. split; [|done]. right. by exists c, k.
    + destruct (encodeURIComponent rest) as [r|] eqn:Er; simpl in He; [|discriminate].
      inversion He. exists c, rest, r.
      split; [lia|]. split; [|done]. by left.
Qed.

Lemma step_rest (s rest : jsstring) (v : N) :
  Forall (fun c => c < 0x10000) s ->
  (s = v :: rest ∧ v < 0x10000
   ∨ exists c k, s = c :: k :: rest
       ∧ 0xD800 <= c <= 0xDBFF ∧ 0xDC00 <= k <= 0xDFFF
       ∧ v = (c - 0xD800) * 0x400 + (k - 0xDC00) + 0x10000) ->
  Forall (fun c => c < 0x10000) rest ∧ (length rest < length s)%nat.
Proof.
  intros Hs [(-> & _)|(c & k & -> & _)].
  - apply Forall_cons in Hs as [_ Hs]. split; [done | simpl; lia].
  - apply Forall_cons in Hs as [_ Hs]. apply Forall_cons in Hs as [_ Hs].
    split; [done | simpl; lia].
Qed.

(** Two strings with the same percent-encoding are equal. *)
Lemma encodeURIComponent_inj (s1 s2 enc : jsstring) :
  Forall (fun c => c < 0x10000) s1 ->
  Forall (fun c => c < 0x10000) s2 ->
  encodeURIComponent s1 = Normal enc ->
  encodeURIComponent s2 = Normal enc ->
  s1 = s2.
Proof.
  remember (length s1) as n eqn:Hn.
  assert (length s1 <= n)%nat as Hle by lia. clear Hn.
  revert s1 s2 enc Hle. induction n as [|n IH]; intros s1 s2 enc Hle H1 H2 E1 E2.
  { destruct s1; [|simpl in Hle; lia]. inversion E1; subst enc.
    destruct (encodeURIComponent_step _ _ H2 E2)
      as [[-> _]|[(c & rest & r & _ & _ & _ & Hr)|(v & rest & r & _ & _ & _ & Hr)]];
      [done | discriminate |].
    destruct (percentEncode_head v) as [t Ht]. rewrite Ht in Hr. discriminate. }
  destruct (encodeURIComponent_step _ _ H1 E1)
    as [[-> ->]|[(c1 & r1 & e1 & -> & U1 & R1 & ->)
                |(v1 & r1 & e1 & B1 & S1 & R1 & ->)]];
  destruct (encodeURIComponent_step _ _ H2 E2)
    as [[-> Henc]|[(c2 & r2 & e2 & -> & U2 & R2 & Henc)
                  |(v2 & r2 & e2 & B2 & S2 & R2 & Henc)]];
  try done; try discriminate.
  - destruct (percentEncode_head v2) as [t Ht]. rewrite Ht in Henc. discriminate.
  - inversion Henc; subst c2 e2.
    apply Forall_cons in H1 as [_ H1]. apply Forall_cons in H2 as [_ H2].
    simpl in Hle. f_equal. eapply (IH r1 r2); [lia | done | done | done | done].
  - destruct (percentEncode_head v2) as [t Ht]. rewrite Ht in Henc.
    inversion Henc; subst c1. by rewrite percent_reserved in U1.
  - destruct (percentEncode_head v1) as [t Ht]. rewrite Ht in Henc. discriminate.
  - destruct (percentEncode_head v1) as [t Ht]. rewrite Ht in Henc.
    inversion Henc; subst c2. by rewrite percent_reserved in U2.
  - apply percentEncode_inj in Henc as [Hv He]; [|done|done]. subst v2 e2.
    destruct (step_rest _ _ _ H1 S1) as [F1 L1].
    destruct (step_rest _ _ _ H2 S2) as [F2 L2].
    assert (r1 = r2) as -> by (eapply (IH r1 r2); [lia | done | done | done | done]).
    destruct S1 as [(-> & Hlow1)|(c1 & k1 & -> & Hc1 & Hk1 & Hv1)];
      destruct S2 as [(-> & Hlow2)|(c2 & k2 & -> & Hc2 & Hk2 & Hv2)].
    + reflexivity.
    + exfalso. lia.
    + exfalso. lia.
    + assert (c1 = c2 ∧ k1 = k2) as [-> ->] by lia. reflexivity.
Qed.

Lemma split_at_separator (x : N) (l1 l2 t1 t2 : jsstring) :
  x ∉ l1 -> x ∉ l2 -> l1 ++ x :: t1 = l2 ++ x :: t2 -> l1 = l2 ∧ t1 = t2.
Proof.
  revert l2. induction l1 as [|a l1 IH]; intros [|b l2] H1 H2 H; simpl in H.
  - by inversion H.
  - inversion H; subst. exfalso. apply H2. left.
  - inversion H; subst. exfalso. apply H1. left.
  - inversion H; subst.
    apply not_elem_of_cons in H1 as [_ H1]. apply not_elem_of_cons in H2 as [_ H2].
    destruct (IH l2 H1 H2) as [-> ->]; done.
Qed.

Lemma code_without_separator (code : jsstring) :
  Forall (fun c => c ∈ lit "SNV") code -> 0x3F ∉ code.
Proof.
  intros H Hin. rewrite Forall_forall in H. apply H in Hin.
  vm_compute lit in Hin.
  repeat (apply elem_of_cons in Hin as [Hin|Hin]; [discriminate|]).
  inversion Hin.
Qed.

Lemma requestUrl_Normal_shape (base s : jsstring) (rs : list jsstring)
    (url : jsstring) :
  requestUrl base (Some s) rs = Normal url ->
  exists enc,
    encodeURIComponent s = Normal enc
    ∧ url = base ++ lit "/-ox/" ++ resolverCode (lowerCaseResolvers rs)
            ++ 0x3F :: enc.
Proof.
  intros Hu.
  pose proof (requestUrl_Normal_inv _ _ _ _ Hu) as (H1 & H2 & H3 & H4).
  rewrite requestUrl_passes in Hu by done. simpl in Hu.
  destruct (encodeURIComponent s) as [enc|]; [|discriminate].
  inversion Hu. by exists enc.
Qed.

(** X13.  The URL determines the call.  Two calls made under the same
    endpoint, with target names of 16-bit code units, that request the same
    URL have the same target name, and selections that agree after
    lower-casing: neither the percent-encoding nor the resolver code maps
    two different inputs to one request. *)
Theorem request_url_determines_call (w w1 w2 : World) (s1 s2 : jsstring)
    (resolvers1 resolvers2 : option (list jsstring)) (url : jsstring) :
  Forall (fun c => c < 0x10000) s1 ->
  Forall (fun c => c < 0x10000) s2 ->
  start w (Some s1) resolvers1 = (w1, Normal url) ->
  start w (Some s2) resolvers2 = (w2, Normal url) ->
  s1 = s2
  ∧ toLowerCase <$> default defaultResolvers resolvers1
    = toLowerCase <$> default defaultResolvers resolvers2.
Proof.
  intros U1 U2 Hs1 Hs2.
  apply start_Normal_inv in Hs1 as [Hu1 _]. apply start_Normal_inv in Hs2 as [Hu2 _].
  pose proof (requestUrl_Normal_inv _ _ _ _ Hu1) as (A1 & A2 & A3 & A4).
  pose proof (requestUrl_Normal_inv _ _ _ _ Hu2) as (B1 & B2 & B3 & B4).
  apply requestUrl_Normal_shape in Hu1 as (enc1 & E1 & Hurl1).
  apply requestUrl_Normal_shape in Hu2 as (enc2 & E2 & Hurl2).
  rewrite Hurl1 in Hurl2.
  apply app_inv_head in Hurl2. apply app_inv_head in Hurl2.
  apply lowerCase_supported in A2, B2.
  assert (forall l, Forall (fun r => r ∈ SUPPORTED_RESOLVERS) l ->
                    Forall (fun c => c ∈ lit "SNV") (resolverCode l)) as Hcode.
  { intros l Hl. rewrite (resolverCode_units _ Hl). apply Forall_fmap.
    eapply Forall_impl; [exact Hl|]. intros r Hr. by apply codeLetter_supported. }
  apply split_at_separator in Hurl2 as [Hc He];
    [| by apply code_without_separator, Hcode
     | by apply code_without_separator, Hcode].
  subst enc2. split.
  - by eapply encodeURIComponent_inj.
  - rewrite (resolverCode_units _ B2), (resolverCode_units _ A2) in Hc.
    unfold lowerCaseResolvers in *.
    revert A2 B2 Hc.
    generalize (toLowerCase <$> default defaultResolvers resolvers1)
               (toLowerCase <$> default defaultResolvers resolvers2).
    induction l as [|a l IH]; intros [|b k] Ha Hb Heq; try done.
    apply Forall_cons in Ha as [Ha Hl]. apply Forall_cons in Hb as [Hb Hk].
    rewrite !fmap_cons in Heq. inversion Heq as [[Hab Hrest]].
    f_equal; [by apply codeUnit_inj | by apply IH].
Qed.

Lemma request_url_determines_call_witness :
  lit "NGC 1234" = lit "NGC 1234"
  ∧ toLowerCase <$> default defaultResolvers None
    = toLowerCase <$> default defaultResolvers (Some [lit "SIMBAD"; lit "ned"; lit "vizier"]).
Proof.
  apply (request_url_determines_call initialWorld
           {| BASE_URL := BASE_URL initialWorld;
              fetchCalls := [BASE_URL initialWorld ++ lit "/-ox/SNV?NGC%201234"] |}
           {| BASE_URL := BASE_URL initialWorld;
              fetchCalls := [BASE_URL initialWorld ++ lit "/-ox/SNV?NGC%201234"] |}
           (lit "NGC 1234") (lit "NGC 1234")
           None (Some [lit "SIMBAD"; lit "ned"; lit "vizier"])
           (BASE_URL initialWorld ++ lit "/-ox/SNV?NGC%201234")).
  - decide_by_computation.
  - decide_by_computation.
  - reflexivity.
  - reflexivity.
Defined.

(** ** The endpoint and the checks *)

Lemma requestUrl_Throw_base (base1 base2 : jsstring) targetName rs (e : JsError) :
  requestUrl base1 targetName rs = Throw e ->
  requestUrl base2 targetName rs = Throw e.
Proof.
  unfold requestUrl.
  destruct (negb (truthy (trimmedTargetName targetName))); [done|].
  cbv zeta. case_bool_decide; [done|]. case_bool_decide; [done|].
  case_bool_decide; [done|].
  destruct (encodedTargetName targetName); [discriminate | done].
Qed.

(** X14.  The synchronous rejections do not depend on the module state: a
    call rejected before [fetch] under one endpoint and record of requests
    is rejected with the same error under any other, so that [setMirror]
    cannot change whether, or with what error, a call is rejected before a
    request is made. *)
Theorem validation_ignores_endpoint (w1 w2 : World)
    (targetName : option jsstring) (resolvers : option (list jsstring))
    (e : JsError) :
  start w1 targetName resolvers = (w1, Throw e)
  <-> start w2 targetName resolvers = (w2, Throw e).
Proof.
  assert (forall wa wb, start wa targetName resolvers = (wa, Throw e) ->
                        start wb targetName resolvers = (wb, Throw e)) as H.
  { intros wa wb Hs. apply start_Throw.
    unfold start in Hs.
    destruct (requestUrl (BASE_URL wa) _ _) as [url|e'] eqn:Hu; inversion Hs; subst e'.
    by eapply requestUrl_Throw_base. }
  split; apply H.
Qed.

(** ** Requests over a sequence of operations *)

Lemma step_issues (w : World) (op : Op) :
  length (fetchCalls (step w op))
  = (length (fetchCalls w) + (if issuesRequest op then 1 else 0))%nat.
Proof.
  destruct op as [targetName resolvers|url]; [|simpl; lia].
  cbn [step].
  destruct (start w targetName resolvers) as [w' [u|e]] eqn:Hs; cbn [fst].
  - pose proof (start_Normal_passes _ _ _ _ _ Hs) as Hv.
    pose proof (start_Normal_inv _ _ _ _ _ Hs) as [Hu ->].
    destruct (passesValidation_name _ _ Hv) as (s & -> & _).
    apply requestUrl_Normal_shape in Hu as (enc & He & _).
    assert (isWellFormed s = true) as Hwf
      by (apply encodeURIComponent_Normal_iff; by exists enc).
    cbn [issuesRequest]. rewrite Hwf, bool_decide_eq_true_2 by done.
    cbn [fetchCalls andb]. rewrite length_app. simpl. lia.
  - assert (w' = w) as ->.
    { unfold start in Hs. destruct (requestUrl _ _ _); by inversion Hs. }
    replace (issuesRequest (CallTargetPosition targetName resolvers)) with false;
      [lia|].
    symmetry. destruct targetName as [s|]; [|reflexivity]. cbn [issuesRequest].
    apply andb_false_iff.
    destruct (decide (passesValidation (Some s) resolvers)) as [Hv|Hv];
      [|left; by apply bool_decide_eq_false_2].
    right. destruct (isWellFormed s) eqn:Hwf; [|done]. exfalso.
    apply encodeURIComponent_Normal_iff in Hwf as [enc Henc].
    destruct Hv as (H1 & H2 & H3 & H4).
    unfold start in Hs. rewrite requestUrl_passes in Hs by done.
    simpl in Hs. rewrite Henc in Hs. simpl in Hs. discriminate.
Qed.

(** X15.  Over any sequence of calls to [targetPosition] and [setMirror],
    [fetch] is called once for each call to [targetPosition] that passes the
    checks with a well-formed target name, and not at all otherwise: the
    number of requests made is the number of such calls. *)
Theorem one_request_per_valid_call (w : World) (ops : list Op) :
  length (fetchCalls (run w ops))
  = (length (fetchCalls w)
     + length (filter (fun op => issuesRequest op = true) ops))%nat.
Proof.
  unfold run. revert w. induction ops as [|op ops IH]; intros w; simpl; [lia|].
  rewrite IH, step_issues.
  destruct (issuesRequest op) eqn:Hop.
  - rewrite filter_cons_True by done. simpl. lia.
  - rewrite filter_cons_False by (rewrite Hop; done). lia.
Qed.

(** ** Rejections after a response *)

Lemma getProp_Throw (v : jsval) (key : jsstring) (e : JsError) :
  getProp v key = Throw e -> exists msg, e = TypeError msg.
Proof. destruct v; simpl; intros [= <-]; by eexists. Qed.

Lemma getIndex0_Throw (v : jsval) (e : JsError) :
  getIndex0 v = Throw e -> exists msg, e = TypeError msg.
Proof.
  destruct v as [| |[|c s]|[|x l]|props]; simpl; intros [= <-]; by eexists.
Qed.

Lemma ToString_Throw (v : jsval) (e : JsError) :
  ToString v = Throw e -> e = cannotConvert.
Proof.
  revert v e. fix IH 1. intros [| |s|items|props] e; simpl; try discriminate.
  - enough (forall e',
              (fix each (l : list jsval) : completion (list jsstring) :=
                 match l with
                 | [] => Normal []
                 | x :: rest =>
                     s ← match x with
                         | JUndefined | JNull => Normal []
                         | _ => ToString x
                         end;
                     ss ← each rest;
                     Normal (s :: ss)
                 end) items = Throw e' -> e' = cannotConvert) as Heach.
    { destruct ((fix each (l : list jsval) := _) items) eqn:E; simpl;
        [discriminate|].
      intros [= <-]. by apply Heach. }
    induction items as [|x items IHitems]; intros e'; [discriminate|].
    pose proof (IH x) as IHx. simpl.
    assert (forall ex,
              match x with
              | JUndefined | JNull => Normal []
              | _ => ToString x
              end = Throw ex -> ex = cannotConvert) as Hx.
    { intros ex. destruct x; try (by intros [=]); apply IHx. }
    destruct (match x with
              | JUndefined | JNull => Normal []
              | _ => ToString x
              end) as [sx|ex]; simpl.
    + destruct ((fix each (l : list jsval) := _) items) as [ss|es]; simpl;
        [by intros [=]|].
      intros [= <-]. by apply IHitems.
    + intros [= <-]. by apply Hx.
  - destruct (hasOwnProperty props (lit "toString")); [|discriminate].
    by intros [= <-].
Qed.

Lemma parseFloat_Throw (v : jsval) (e : JsError) :
  parseFloat v = Throw e -> exists msg, e = TypeError msg.
Proof.
  unfold parseFloat. destruct (ToString v) as [s|e'] eqn:Hs; simpl; [by intros [=]|].
  intros [= <-]. apply ToString_Throw in Hs as ->. by eexists.
Qed.

Lemma firstEntryNumber_Throw (resolver : jsval) (key : jsstring) (e : JsError) :
  firstEntryNumber resolver key = Throw e -> exists msg, e = TypeError msg.
Proof.
  unfold firstEntryNumber.
  destruct (getIndex0 resolver) as [entry|e1] eqn:H1; simpl;
    [|intros [= <-]; by eapply getIndex0_Throw].
  destruct (getProp entry key) as [field|e2] eqn:H2; simpl;
    [|intros [= <-]; by eapply getProp_Throw].
  apply parseFloat_Throw.
Qed.

Lemma resolverOf_Throw (root : jsval) (e : JsError) :
  resolverOf root = Throw e -> exists msg, e = TypeError msg.
Proof.
  unfold resolverOf.
  destruct (getProp root (lit "Sesame")) as [sesame|e1] eqn:H1; simpl;
    [|intros [= <-]; by eapply getProp_Throw].
  destruct (getProp sesame (lit "Target")) as [target|e2] eqn:H2; simpl;
    [|intros [= <-]; by eapply getProp_Throw].
  destruct (getIndex0 target) as [target0|e3] eqn:H3; simpl;
    [|intros [= <-]; by eapply getIndex0_Throw].
  apply getProp_Throw.
Qed.

Lemma extractTarget_Throw (err : option JsError) (root : jsval) (e : JsError) :
  extractTarget err root = Throw e -> exists msg, e = TypeError msg.
Proof.
  unfold extractTarget.
  destruct (resolverOf root) as [resolver|e1] eqn:H1; simpl;
    [|intros [= <-]; by eapply resolverOf_Throw].
  destruct (falsy resolver || lengthIsZero resolver); [by intros [=]|].
  destruct (firstEntryNumber resolver (lit "jradeg")) as [ra|e2] eqn:H2; simpl;
    [|intros [= <-]; by eapply firstEntryNumber_Throw].
  destruct (firstEntryNumber resolver (lit "jdedeg")) as [dec|e3] eqn:H3; simpl;
    [|intros [= <-]; by eapply firstEntryNumber_Throw].
  destruct (negb (isNaN ra) && negb (isNaN dec)); by intros [=].
Qed.

(** X16.  Once a response of success status has been read, the promise
    can only be rejected with a TypeError, raised while the parsed reply is
    taken apart: neither the error of the XML parser nor an [Error] with a
    message of the module's own is ever the reason. *)
Theorem rejection_after_success_status (h : Host) (w w' : World)
    (targetName : option jsstring) (resolvers : option (list jsstring))
    (url : jsstring) (res : Response) (body : jsstring) (e : JsError) :
  start w targetName resolvers = (w', Normal url) ->
  fetch h url = Fulfilled res ->
  ok res = true ->
  text res = Fulfilled body ->
  targetPosition h w targetName resolvers = (w', Rejected e) ->
  exists msg, e = TypeError msg.
Proof.
  intros Hs Hf Hok Ht. unfold targetPosition. rewrite Hs.
  unfold settlement. rewrite Hf. simpl. unfold parseText. rewrite Ht. simpl.
  unfold handleResponse. simpl. rewrite Hok. simpl. unfold parseString.
  intros [= H].
  destruct (xml2js h body) as [err|root];
    (destruct (extractTarget _ _) as [v|e'] eqn:He; simpl in H; [discriminate|]);
    injection H as <-; by eapply extractTarget_Throw.
Qed.

Lemma rejection_after_success_status_witness :
  exists msg, cannotRead (lit "jradeg") "null" = TypeError msg.
Proof.
  apply (rejection_after_success_status
           (mockHost (okResponse (lit "<Sesame>...</Sesame>"))
                     (Parsed (sesameReply [JNull])))
           initialWorld
           {| BASE_URL := BASE_URL initialWorld;
              fetchCalls := [BASE_URL initialWorld ++ lit "/-ox/SNV?A"] |}
           (Some (lit "A")) None
           (BASE_URL initialWorld ++ lit "/-ox/SNV?A")
           {| ok := true; text := Fulfilled (lit "<Sesame>...</Sesame>") |}
           (lit "<Sesame>...</Sesame>")
           (cannotRead (lit "jradeg") "null"));
    reflexivity.
Defined.
